(** * fix_compilation_errors.py: a regex-driven source rewriter

    Shallow embedding of [veza-chat-server/fix_compilation_errors.py].

    The script reads Rust source files, pushes their text through a fixed
    sequence of [re.sub] calls and writes the text back.  The development
    has four layers:

    - [Re]: the fragment of Python's [re] module the script relies on
      (pattern compiler, backtracking matcher, replacement templates and
      the left-to-right scan of [re.sub]);
    - [Fs]: the file system and standard output the script acts on, with
      an exception-and-state monad for [open], [read], [write], [print];
    - [Script]: the five functions of the script, statement by statement;
    - [Rules]: the same substitutions as ordered lists of rules, the
      form in which the specification speaks of them.

    Text is a [string], i.e. a sequence of bytes: a Python [str] is
    represented by its UTF-8 encoding, and files are taken to hold valid
    UTF-8.  Every pattern of the script is ASCII, so matching on bytes
    and matching on code points select the same spans. *)

From Stdlib Require Import Ascii String.
From stdpp Require Import gmap strings list fin_maps.

(** Characters that cannot be typed inside a string literal. *)
Definition dquote : ascii := "034"%char.
Definition newline : ascii := "010"%char.
Definition backslash : ascii := "092"%char.
Definition carriage_return : ascii := "013"%char.

Definition dq : string := String dquote EmptyString.
Definition nl : string := String newline EmptyString.

(* ================================================================== *)
(** * The [re] fragment *)
(* ================================================================== *)

Module Re.

(** ** Compiled patterns

    The patterns of the script are flat: literal characters, [.],
    a negated one-character class, each optionally followed by [+] or [*],
    and capture parentheses. *)

Inductive cclass : Type :=
  | CChar (a : ascii)       (* a literal character *)
  | CDot                    (* [.]: any character but a newline *)
  | CNotChar (a : ascii).   (* [[^a]] *)

Inductive node : Type :=
  | NOne (c : cclass)
  | NPlus (c : cclass)      (* greedy [+] *)
  | NStar (c : cclass)      (* greedy [*] *)
  | NOpen                   (* [(] *)
  | NClose.                 (* [)] *)

Definition accepts (c : cclass) (a : ascii) : bool :=
  match c with
  | CChar b => Ascii.eqb a b
  | CDot => negb (Ascii.eqb a newline)
  | CNotChar b => negb (Ascii.eqb a b)
  end.

(** ** Pattern compiler

    [None] stands for [re.error] or for syntax outside the fragment. *)

Inductive pstate : Type :=
  | PNormal
  | PEscape                 (* after a backslash *)
  | PClassOpen              (* after [[] *)
  | PClassNeg               (* after [[^] *)
  | PClassChar (a : ascii). (* after [[^a] *)

Definition is_alnum (a : ascii) : bool :=
  let n := nat_of_ascii a in
  ((48 <=? n) && (n <=? 57)) || ((65 <=? n) && (n <=? 90))
  || ((97 <=? n) && (n <=? 122)).

Definition quantify (q : cclass -> node) (acc : list node) : option (list node) :=
  match acc with
  | NOne c :: acc' => Some (q c :: acc')
  | _ => None
  end.

Definition starts_with_char (a : ascii) (s : string) : bool :=
  match s with
  | String b _ => Ascii.eqb a b
  | EmptyString => false
  end.

Fixpoint parse (s : string) (st : pstate) (depth : nat) (acc : list node)
  : option (list node) :=
  match s with
  | EmptyString =>
      match st, depth with
      | PNormal, O => Some (rev acc)
      | _, _ => None
      end
  | String a s' =>
      match st with
      | PEscape =>
          if Ascii.eqb a "n" then parse s' PNormal depth (NOne (CChar newline) :: acc)
          else if is_alnum a then None
          else parse s' PNormal depth (NOne (CChar a) :: acc)
      | PClassOpen =>
          if Ascii.eqb a "^" then parse s' PClassNeg depth acc else None
      | PClassNeg =>
          if Ascii.eqb a backslash || Ascii.eqb a "]" then None
          else parse s' (PClassChar a) depth acc
      | PClassChar c =>
          if Ascii.eqb a "]" then parse s' PNormal depth (NOne (CNotChar c) :: acc)
          else None
      | PNormal =>
          if Ascii.eqb a backslash then parse s' PEscape depth acc
          else if Ascii.eqb a "[" then parse s' PClassOpen depth acc
          else if Ascii.eqb a "." then parse s' PNormal depth (NOne CDot :: acc)
          else if Ascii.eqb a "(" then
            if starts_with_char "?" s' then None
            else parse s' PNormal (S depth) (NOpen :: acc)
          else if Ascii.eqb a ")" then
            match depth with
            | O => None
            | S d => parse s' PNormal d (NClose :: acc)
            end
          else if Ascii.eqb a "+" then
            acc' ← quantify NPlus acc; parse s' PNormal depth acc'
          else if Ascii.eqb a "*" then
            acc' ← quantify NStar acc; parse s' PNormal depth acc'
          else if Ascii.eqb a "?" || Ascii.eqb a "{" || Ascii.eqb a "|"
                  || Ascii.eqb a "^" || Ascii.eqb a "$" then None
          else parse s' PNormal depth (NOne (CChar a) :: acc)
      end
  end.

Definition compile (pattern : string) : option (list node) :=
  parse pattern PNormal 0 [].

Definition is_open (n : node) : bool :=
  match n with NOpen => true | _ => false end.

Definition groups (p : list node) : nat := length (filter is_open p).

(** ** Matcher

    A capture is the span [(start, end)] of a group, counted from the
    start of the match; [end] is [None] while the group is open. *)

Definition captures : Type := list (nat * option nat).

Definition span_open (c : nat * option nat) : bool :=
  match c with (_, None) => true | _ => false end.

Definition open_group (pos : nat) (caps : captures) : captures :=
  caps ++ [(pos, None)].

(** Closes the group opened last among those still open. *)
Fixpoint close_group (pos : nat) (caps : captures) : captures :=
  match caps with
  | [] => []
  | (b, e) :: caps' =>
      if existsb span_open caps' then (b, e) :: close_group pos caps'
      else match e with
           | None => (b, Some pos) :: caps'
           | Some _ => (b, e) :: caps'
           end
  end.

(** Greedy repetition of a one-character class, followed by [k]: the
    longest run is tried first, shorter ones on failure of [k]. *)
Fixpoint match_star (c : cclass) (k : string -> nat -> captures -> option (nat * captures))
    (s : string) (pos : nat) (caps : captures) : option (nat * captures) :=
  match s with
  | String a s' =>
      if accepts c a then
        match match_star c k s' (S pos) caps with
        | Some r => Some r
        | None => k s pos caps
        end
      else k s pos caps
  | EmptyString => k s pos caps
  end.

(** [match_nodes p s pos caps]: match [p] at the head of [s], [pos]
    characters into the match; the result is the length of the match and
    the group spans. *)
Fixpoint match_nodes (p : list node) (s : string) (pos : nat) (caps : captures)
  : option (nat * captures) :=
  match p with
  | [] => Some (pos, caps)
  | NOne c :: p' =>
      match s with
      | String a s' => if accepts c a then match_nodes p' s' (S pos) caps else None
      | EmptyString => None
      end
  | NPlus c :: p' =>
      match s with
      | String a s' =>
          if accepts c a then match_star c (match_nodes p') s' (S pos) caps else None
      | EmptyString => None
      end
  | NStar c :: p' => match_star c (match_nodes p') s pos caps
  | NOpen :: p' => match_nodes p' s pos (open_group pos caps)
  | NClose :: p' => match_nodes p' s pos (close_group pos caps)
  end.

Definition match_at (p : list node) (s : string) : option (nat * captures) :=
  match_nodes p s 0 [].

(** ** Replacement templates *)

Inductive titem : Type :=
  | TChar (a : ascii)
  | TGroup (n : nat).

Fixpoint parse_template (s : string) (ngroups : nat) : option (list titem) :=
  match s with
  | EmptyString => Some []
  | String a s' =>
      if Ascii.eqb a backslash then
        match s' with
        | EmptyString => None
        | String d s'' =>
            match Ascii.is_nat d with
            | Some O => None
            | Some n =>
                if match s'' with
                   | String d' _ => bool_decide (is_Some (Ascii.is_nat d'))
                   | EmptyString => false
                   end then None
                else if n <=? ngroups then cons (TGroup n) <$> parse_template s'' ngroups
                else None
            | None =>
                if Ascii.eqb d backslash then cons (TChar backslash) <$> parse_template s'' ngroups
                else if Ascii.eqb d "n" then cons (TChar newline) <$> parse_template s'' ngroups
                else None
            end
        end
      else cons (TChar a) <$> parse_template s' ngroups
  end.

(** Text of group [n] in a match that starts at the head of [s]. *)
Definition group_text (s : string) (caps : captures) (n : nat) : string :=
  match caps !! (n - 1) with
  | Some (b, Some e) => substring b (e - b) s
  | _ => EmptyString
  end.

Fixpoint expand (t : list titem) (s : string) (caps : captures) : string :=
  match t with
  | [] => EmptyString
  | TChar a :: t' => String a (expand t' s caps)
  | TGroup n :: t' => group_text s caps n +:+ expand t' s caps
  end.

(** ** The scan of [re.sub]

    [limit] is the number of replacements still allowed ([None]: no
    bound); [skip] is the number of characters of [s] that belong to the
    match replaced last. *)

Definition exhausted (limit : option nat) : bool :=
  match limit with Some O => true | _ => false end.

Definition spend (limit : option nat) : option nat := pred <$> limit.

Fixpoint subn_scan (p : list node) (t : list titem) (s : string) (skip : nat)
    (limit : option nat) : string * nat :=
  match skip with
  | S k =>
      match s with
      | String _ s' => subn_scan p t s' k limit
      | EmptyString => (EmptyString, 0)
      end
  | O =>
      match (if exhausted limit then None else match_at p s) with
      | Some (n, caps) =>
          let out := expand t s caps in
          match s with
          | EmptyString => (out, 1)
          | String a s' =>
              match n with
              | O =>
                  let r := subn_scan p t s' 0 (spend limit) in
                  (out +:+ String a r.1, S r.2)
              | S k =>
                  let r := subn_scan p t s' k (spend limit) in
                  (out +:+ r.1, S r.2)
              end
          end
      | None =>
          match s with
          | EmptyString => (EmptyString, 0)
          | String a s' =>
              let r := subn_scan p t s' 0 limit in (String a r.1, r.2)
          end
      end
  end.

Definition limit_of (count : nat) : option nat :=
  match count with O => None | _ => Some count end.

(** [re.subn(pattern, repl, string, count)]; [count = 0] replaces every
    match. *)
Definition subn (pattern repl text : string) (count : nat) : option (string * nat) :=
  p ← compile pattern;
  t ← parse_template repl (groups p);
  Some (subn_scan p t text 0 (limit_of count)).

(** [re.sub(pattern, repl, string, count)]. *)
Definition sub (pattern repl text : string) (count : nat) : option string :=
  fst <$> subn pattern repl text count.

End Re.

(* ================================================================== *)
(** * Files, standard output and exceptions *)
(* ================================================================== *)

Module Fs.

(** A regular file: its text and a modification stamp that every
    operation changing the file advances (the file's [mtime]). *)
Record file : Type := File { data : string; mtime : nat }.

(** The part of the process environment the script acts on.  Only regular
    files are modelled, keyed by absolute path; [commands] logs the
    command lines handed to [os.system]. *)
Record world : Type := World {
  cwd : string;
  files : gmap string file;
  stdout : list string;
  commands : list string
}.

Inductive exn : Type :=
  | FileNotFoundError (path : string)
  | ReError.

Inductive outcome (A : Type) : Type :=
  | Ok (a : A)
  | Raise (e : exn).
Arguments Ok {A} a.
Arguments Raise {A} e.

(** A computation threads the world and either returns or raises; the
    effects done before a raise stay done. *)
Definition io (A : Type) : Type := world -> world * outcome A.

Definition ret {A} (a : A) : io A := fun w => (w, Ok a).
Definition raise {A} (e : exn) : io A := fun w => (w, Raise e).
Definition bind {A B} (m : io A) (k : A -> io B) : io B :=
  fun w =>
    match m w with
    | (w', Ok a) => k a w'
    | (w', Raise e) => (w', Raise e)
    end.

#[global] Instance io_ret : MRet io := @ret.
#[global] Instance io_bind : MBind io := fun A B k m => bind m k.

(** Relative paths are resolved against the working directory. *)
Definition resolve (w : world) (path : string) : string :=
  cwd w +:+ "/" +:+ path.

Definition set_files (fs : gmap string file) (w : world) : world :=
  World (cwd w) fs (stdout w) (commands w).

(** Directories are not stored: a directory is there when a regular
    file lies beneath it (a directory without any file beneath it is
    outside the model). *)
Definition is_dir (w : world) (path : string) : bool :=
  bool_decide
    (map_Exists (fun key _ => String.prefix (path +:+ "/") key = true) (files w)).

(** [os.chdir(path)], with [path] absolute: [FileNotFoundError] for
    [path] when there is no such directory. *)
Definition chdir (path : string) : io unit :=
  fun w =>
    if is_dir w path then (World path (files w) (stdout w) (commands w), Ok tt)
    else (w, Raise (FileNotFoundError path)).

(** [os.path.exists(path)] *)
Definition path_exists (path : string) : io bool :=
  fun w => (w, Ok (bool_decide (is_Some (files w !! resolve w path)))).

(** Text mode with the default [newline=None]: on reading, [\r\n] and a
    lone [\r] become [\n].  (On writing, [\n] becomes [os.linesep], which
    is [\n] on the Linux host the script names.) *)
Fixpoint universal_newlines (s : string) : string :=
  match s with
  | EmptyString => EmptyString
  | String a s' =>
      if Ascii.eqb a carriage_return then
        String newline
          match s' with
          | String b s'' =>
              if Ascii.eqb b newline then universal_newlines s''
              else universal_newlines s'
          | EmptyString => universal_newlines s'
          end
      else String a (universal_newlines s')
  end.

(** [with open(path, 'r') as f: content = f.read()] *)
Definition read_file (path : string) : io string :=
  fun w =>
    match files w !! resolve w path with
    | Some f => (w, Ok (universal_newlines (data f)))
    | None => (w, Raise (FileNotFoundError path))
    end.

(** [open(path, 'w')]: the file is created if need be and truncated at
    once. *)
Definition open_w (path : string) : io unit :=
  fun w =>
    let stamp := match files w !! resolve w path with
                 | Some f => S (mtime f)
                 | None => O
                 end in
    (set_files (<[resolve w path := File EmptyString stamp]> (files w)) w, Ok tt).

(** [f.write(content)] on the handle opened for [path], flushed when the
    [with] block closes the handle: the text goes to the end of the file. *)
Definition write (path content : string) : io unit :=
  fun w =>
    let f := default (File EmptyString O) (files w !! resolve w path) in
    (set_files (<[resolve w path := File (data f +:+ content) (S (mtime f))]> (files w)) w,
     Ok tt).

(** [print(line)] *)
Definition print (line : string) : io unit :=
  fun w => (World (cwd w) (files w) (stdout w ++ [line]) (commands w), Ok tt).

(** [os.system(cmd)]: the script drops the status of the command.  The
    command line is logged and nothing else is recorded: what the
    command itself writes (the build directory of [cargo check]) is
    outside the model, so [files] after a [system] step speaks of the
    files as the script left them. *)
Definition system (cmd : string) : io unit :=
  fun w => (World (cwd w) (files w) (stdout w) (commands w ++ [cmd]), Ok tt).

(** [for x in xs: body(x)] *)
Fixpoint for_each {A} (xs : list A) (body : A -> io unit) : io unit :=
  match xs with
  | [] => mret tt
  | x :: xs' => body x ;; for_each xs' body
  end.

(** The two statements that write a text back, [open(path, 'w')] and
    [f.write(content)], as a sequence of steps; an interruption after [n]
    steps leaves the world [interrupted n ...]. *)
Definition write_back_steps (path content : string) : list (io unit) :=
  [open_w path; write path content].

Definition run_steps (steps : list (io unit)) : io unit :=
  for_each steps (fun step => step).

Definition write_back (path content : string) : io unit :=
  run_steps (write_back_steps path content).

Definition interrupted (n : nat) (path content : string) (w : world) : world :=
  (run_steps (take n (write_back_steps path content)) w).1.

End Fs.

(* ================================================================== *)
(** * The script *)
(* ================================================================== *)

Module Script.
Import Fs.

(** A failed [re.sub] surfaces as the exception [re.error]. *)
Definition lift_re {A} (o : option A) : io A :=
  match o with
  | Some a => mret a
  | None => raise ReError
  end.

(** ** [fix_message_store_errors] *)

Definition row_fields : list string :=
  [ "id"; "content"; "author_id"; "author_username"; "room_id";
    "recipient_id"; "recipient_username"; "created_at"; "updated_at";
    "status"; "is_pinned"; "is_edited"; "original_content";
    "parent_message_id"; "thread_count"; "is_flagged"; "moderation_notes";
    "message_type"; "mention_ids" ].

(** The loop [for field in row_fields: content = re.sub(...)], for any
    list of fields. *)
Fixpoint rewrite_row_fields (fields : list string) (content : string) : option string :=
  match fields with
  | [] => Some content
  | field :: fields' =>
      content ← Re.sub ("row\." +:+ field)
                       ("row.try_get(" +:+ dq +:+ field +:+ dq +:+ ").unwrap_or_default()")
                       content 0;
      rewrite_row_fields fields' content
  end.

(** The substitutions of [fix_message_store_errors], in source order. *)
Definition message_store_subs (content : string) : option string :=
  content ← Re.sub "\.map_err\(ChatError::Database\)\?"
      (".map_err(|e| ChatError::database_error(" +:+ dq +:+ "database_operation"
         +:+ dq +:+ ", e))?")
      content 0;
  content ← Re.sub
      ("ChatError::PermissionDenied\(" +:+ dq +:+ "([^" +:+ dq +:+ "]+)" +:+ dq
         +:+ "\\.to_string\(\)\)")
      ("ChatError::PermissionDenied { message: " +:+ dq +:+ "\1" +:+ dq
         +:+ ".to_string() }")
      content 0;
  content ← Re.sub
      ("ChatError::PermissionDenied\(" +:+ dq +:+ "([^" +:+ dq +:+ "]+)" +:+ dq +:+ "\)")
      ("ChatError::PermissionDenied { message: " +:+ dq +:+ "\1" +:+ dq
         +:+ ".to_string() }")
      content 0;
  content ← Re.sub "ChatError::ReactionAlreadyExists\)"
      "ChatError::ReactionAlreadyExists" content 0;
  content ← Re.sub "ChatError::ReactionNotFound\)"
      "ChatError::ReactionNotFound" content 0;
  content ← Re.sub
      ("ChatError::configuration_error\(" +:+ dq +:+ "([^" +:+ dq +:+ "]+)" +:+ dq
         +:+ "\\.to_string\(\)\)")
      ("ChatError::configuration_error(" +:+ dq +:+ "\1" +:+ dq +:+ ")")
      content 0;
  content ← Re.sub
      "async fn row_to_message\(&self, row: sqlx::Row\) -> Result<Message>"
      "async fn row_to_message<R: sqlx::Row>(&self, row: R) -> Result<Message>"
      content 0;
  rewrite_row_fields row_fields content.

Definition fix_message_store_errors : io unit :=
  let file_path := "src/message_store.rs" in
  content ← read_file file_path;
  content ← lift_re (message_store_subs content);
  open_w file_path;;
  write file_path content;;
  print ("✅ Corrigé " +:+ file_path).

(** ** [fix_message_handler_errors] *)

Definition message_handler_subs (content : string) : option string :=
  content ← Re.sub "self\.content_filter\.validate_room_name\(([^)]+)\)"
      "self.content_filter.validate_content(\1)" content 0;
  Re.sub "self\.content_filter\.sanitize_content\(([^)]+)\)"
      "self.content_filter.validate_content(\1)" content 0.

Definition fix_message_handler_errors : io unit :=
  let file_path := "src/message_handler.rs" in
  content ← read_file file_path;
  content ← lift_re (message_handler_subs content);
  open_w file_path;;
  write file_path content;;
  print ("✅ Corrigé " +:+ file_path).

(** ** [fix_error_severity] *)

Definition error_severity_subs (content : string) : option string :=
  Re.sub "Self::MessageTooLong \{ \.\. \} => 413," "" content 1.

Definition fix_error_severity : io unit :=
  let file_path := "src/error.rs" in
  content ← read_file file_path;
  content ← lift_re (error_severity_subs content);
  open_w file_path;;
  write file_path content;;
  print ("✅ Corrigé " +:+ file_path).

(** ** [fix_unused_imports] *)

Definition files_to_fix : list string :=
  [ "src/hub/channel_websocket.rs";
    "src/hub/direct_messages_websocket.rs";
    "src/moderation.rs";
    "src/monitoring.rs";
    "src/security.rs";
    "src/websocket.rs" ].

Definition unused_imports_subs (content : string) : option string :=
  content ← Re.sub "use.*tungstenite::Message;\n" "" content 0;
  content ← Re.sub ", error" "" content 0;
  content ← Re.sub "use std::collections::HashMap;\n" "" content 0;
  content ← Re.sub ", SystemTime, UNIX_EPOCH" "" content 0;
  content ← Re.sub ", Deserialize" "" content 0;
  content ← Re.sub "use crate::error::Result;\n" "" content 0;
  content ← Re.sub ", UNIX_EPOCH" "" content 0;
  content ← Re.sub ", Serialize, Deserialize" "" content 0;
  content ← Re.sub ", Result as WsResult" "" content 0;
  content ← Re.sub "let blocked_by" "let _blocked_by" content 0;
  Re.sub "let mut config" "let config" content 0.

(** The body of the loop over [files_to_fix]. *)
Definition fix_unused_imports_in (file_path : string) : io unit :=
  found ← path_exists file_path;
  if (found : bool) then
    content ← read_file file_path;
    content ← lift_re (unused_imports_subs content);
    open_w file_path;;
    write file_path content;;
    print ("✅ Corrigé " +:+ file_path)
  else mret tt.

Definition fix_unused_imports : io unit :=
  for_each files_to_fix fix_unused_imports_in.

(** ** [main] *)

Definition apply_fixes : io unit :=
  fix_message_store_errors;;
  fix_message_handler_errors;;
  fix_error_severity;;
  fix_unused_imports.

Definition main : io unit :=
  print "🔧 Correction des erreurs de compilation Rust...";;
  chdir "/home/senke/Documents/veza-full-stack/veza-chat-server";;
  apply_fixes;;
  print "✅ Toutes les corrections appliquées!";;
  print "🔄 Vérification de la compilation...";;
  system "cargo check".

End Script.

(* ================================================================== *)
(** * The rule sets, as the specification describes them *)
(* ================================================================== *)

Module Rules.

(** A rule: pattern, replacement and application bound ([0]: unbounded). *)
Record rule : Type := Rule {
  pattern : string;
  replacement : string;
  max_applications : nat
}.

Definition apply_rule_n (r : rule) (text : string) : option (string * nat) :=
  Re.subn (pattern r) (replacement r) text (max_applications r).

Definition apply_rule (r : rule) (text : string) : option string :=
  Re.sub (pattern r) (replacement r) text (max_applications r).

(** Left-to-right composition: each rule works on the text the previous
    one produced. *)
Fixpoint apply_rules (rs : list rule) (text : string) : option string :=
  match rs with
  | [] => Some text
  | r :: rs' => text' ← apply_rule r text; apply_rules rs' text'
  end.

(** The same, with the running count of replacements. *)
Fixpoint apply_rules_n (rs : list rule) (text : string) : option (string * nat) :=
  match rs with
  | [] => Some (text, 0)
  | r :: rs' =>
      '(text', n) ← apply_rule_n r text;
      '(out, m) ← apply_rules_n rs' text';
      Some (out, n + m)
  end.

(** A rule is usable when its pattern compiles and its replacement
    refers to groups the pattern has. *)
Definition usable (r : rule) : bool :=
  match Re.compile (pattern r) with
  | Some p => bool_decide (is_Some (Re.parse_template (replacement r) (Re.groups p)))
  | None => false
  end.

(** [re.search(pattern, text) is not None], on a compiled pattern. *)
Fixpoint search (p : list Re.node) (s : string) : bool :=
  match Re.match_at p s with
  | Some _ => true
  | None =>
      match s with
      | EmptyString => false
      | String _ s' => search p s'
      end
  end.

(** No pattern of the rule set matches anywhere in the text. *)
Definition settled (rs : list rule) (text : string) : bool :=
  forallb (fun r => match Re.compile (pattern r) with
                    | Some p => negb (search p text)
                    | None => false
                    end) rs.

(** The expansion of a field list into rules. *)
Definition field_rule (field : string) : rule :=
  Rule ("row\." +:+ field)
       ("row.try_get(" +:+ dq +:+ field +:+ dq +:+ ").unwrap_or_default()") 0.

Definition expand_fields (fields : list string) : list rule := map field_rule fields.

Definition message_store_rules : list rule :=
  [ Rule "\.map_err\(ChatError::Database\)\?"
         (".map_err(|e| ChatError::database_error(" +:+ dq +:+ "database_operation"
            +:+ dq +:+ ", e))?") 0;
    Rule ("ChatError::PermissionDenied\(" +:+ dq +:+ "([^" +:+ dq +:+ "]+)" +:+ dq
            +:+ "\\.to_string\(\)\)")
         ("ChatError::PermissionDenied { message: " +:+ dq +:+ "\1" +:+ dq
            +:+ ".to_string() }") 0;
    Rule ("ChatError::PermissionDenied\(" +:+ dq +:+ "([^" +:+ dq +:+ "]+)" +:+ dq +:+ "\)")
         ("ChatError::PermissionDenied { message: " +:+ dq +:+ "\1" +:+ dq
            +:+ ".to_string() }") 0;
    Rule "ChatError::ReactionAlreadyExists\)" "ChatError::ReactionAlreadyExists" 0;
    Rule "ChatError::ReactionNotFound\)" "ChatError::ReactionNotFound" 0;
    Rule ("ChatError::configuration_error\(" +:+ dq +:+ "([^" +:+ dq +:+ "]+)" +:+ dq
            +:+ "\\.to_string\(\)\)")
         ("ChatError::configuration_error(" +:+ dq +:+ "\1" +:+ dq +:+ ")") 0;
    Rule "async fn row_to_message\(&self, row: sqlx::Row\) -> Result<Message>"
         "async fn row_to_message<R: sqlx::Row>(&self, row: R) -> Result<Message>" 0 ]
  ++ expand_fields Script.row_fields.

Definition message_handler_rules : list rule :=
  [ Rule "self\.content_filter\.validate_room_name\(([^)]+)\)"
         "self.content_filter.validate_content(\1)" 0;
    Rule "self\.content_filter\.sanitize_content\(([^)]+)\)"
         "self.content_filter.validate_content(\1)" 0 ].

Definition error_severity_rules : list rule :=
  [ Rule "Self::MessageTooLong \{ \.\. \} => 413," "" 1 ].

Definition unused_imports_rules : list rule :=
  [ Rule "use.*tungstenite::Message;\n" "" 0;
    Rule ", error" "" 0;
    Rule "use std::collections::HashMap;\n" "" 0;
    Rule ", SystemTime, UNIX_EPOCH" "" 0;
    Rule ", Deserialize" "" 0;
    Rule "use crate::error::Result;\n" "" 0;
    Rule ", UNIX_EPOCH" "" 0;
    Rule ", Serialize, Deserialize" "" 0;
    Rule ", Result as WsResult" "" 0;
    Rule "let blocked_by" "let _blocked_by" 0;
    Rule "let mut config" "let config" 0 ].

(** [rs] with the rules at positions [i] and [j] exchanged. *)
Definition swap (i j : nat) (rs : list rule) : list rule :=
  match rs !! i, rs !! j with
  | Some ri, Some rj => <[i := rj]> (<[j := ri]> rs)
  | _, _ => rs
  end.

End Rules.

(* ================================================================== *)
(** * Notions used in the statements *)
(* ================================================================== *)

Section notions.
Import Re.

(** The compiled form of a pattern without metacharacters. *)
Definition lit (L : string) : list node :=
  (fun a => NOne (CChar a)) <$> list_ascii_of_string L.

(** Every character of [s] satisfies [f]. *)
Fixpoint all_chars (f : ascii -> bool) (s : string) : bool :=
  match s with
  | EmptyString => true
  | String a s' => f a && all_chars f s'
  end.

(** [L] occurs in [s] as a substring. *)
Fixpoint occurs (L s : string) : bool :=
  String.prefix L s ||
  match s with
  | EmptyString => false
  | String _ s' => occurs L s'
  end.

(** [differs a b]: the character [b] is not [a]. *)
Definition differs (a : ascii) (b : ascii) : bool := negb (Ascii.eqb b a).

#[global] Instance cclass_eq_dec : EqDecision cclass.
Proof. solve_decision. Defined.
#[global] Instance node_eq_dec : EqDecision node.
Proof. solve_decision. Defined.
#[global] Instance titem_eq_dec : EqDecision titem.
Proof. solve_decision. Defined.

(** The parsed form of a replacement without backslash. *)
Definition tlit (L : string) : list titem := TChar <$> list_ascii_of_string L.

(** A rule whose pattern is the text [L] and whose replacement is the
    text [R], both free of metacharacters. *)
Definition literal_rule (pattern L repl R : string) : bool :=
  bool_decide (compile pattern = Some (lit L))
  && bool_decide (parse_template repl 0 = Some (tlit R)).

(** The defensive accessor the script writes for a field. *)
Definition accessor (field : string) : string :=
  "row.try_get(" +:+ dq +:+ field +:+ dq +:+ ").unwrap_or_default()".

(** A field name without metacharacters: its pattern is the text
    [row.<field>] and its replacement is the accessor, letter for letter. *)
Definition plain_field (field : string) : bool :=
  literal_rule ("row\." +:+ field) ("row." +:+ field) (accessor field) (accessor field).

(** The line [fix_error_severity] deletes. *)
Definition duplicate_arm : string := "Self::MessageTooLong { .. } => 413,".

(** The compiled form of [head\(([^)]+)\)] and the parsed form of
    [head'(\1)], for texts [head] and [head'] without metacharacters. *)
Definition call_pattern (head : string) : list node :=
  lit head ++ [NOpen; NPlus (CNotChar ")"); NClose; NOne (CChar ")")].

Definition call_template (head' : string) : list titem :=
  tlit head' ++ [TGroup 1; TChar ")"].

Definition call_rule (pattern head repl head' : string) : bool :=
  bool_decide (compile pattern = Some (call_pattern head))
  && bool_decide (parse_template repl 1 = Some (call_template head')).









End notions.

(* ================================================================== *)
(** * The passes, as the statements see them *)
(* ================================================================== *)

Section passes.
Import Fs Script Rules.

(** The statements every pass runs on a file: read, substitute, write
    back, report. *)
Definition rewrite_file (file_path : string) (subs : string → option string) : io unit :=
  content ← read_file file_path;
  content ← lift_re (subs content);
  open_w file_path;;
  write file_path content;;
  print ("✅ Corrigé " +:+ file_path).

(** The world a successful [rewrite_file] leaves. *)
Definition rewritten (path out : string) (f : file) (w : world) : world :=
  World (cwd w)
        (<[resolve w path := File out (S (S (mtime f)))]> (files w))
        (stdout w ++ ["✅ Corrigé " +:+ path])
        (commands w).

(** The three passes that rewrite one file each. *)
Inductive pass : Type := MessageStore | MessageHandler | ErrorSeverity.

Definition pass_fix (ps : pass) : io unit :=
  match ps with
  | MessageStore => fix_message_store_errors
  | MessageHandler => fix_message_handler_errors
  | ErrorSeverity => fix_error_severity
  end.

Definition pass_path (ps : pass) : string :=
  match ps with
  | MessageStore => "src/message_store.rs"
  | MessageHandler => "src/message_handler.rs"
  | ErrorSeverity => "src/error.rs"
  end.

Definition pass_subs (ps : pass) : string → option string :=
  match ps with
  | MessageStore => message_store_subs
  | MessageHandler => message_handler_subs
  | ErrorSeverity => error_severity_subs
  end.

Definition pass_rules (ps : pass) : list rule :=
  match ps with
  | MessageStore => message_store_rules
  | MessageHandler => message_handler_rules
  | ErrorSeverity => error_severity_rules
  end.


(** The world after the banner and the change of directory. *)
Definition started (w : world) : world :=
  World "/home/senke/Documents/veza-full-stack/veza-chat-server" (files w)
        (stdout w ++ ["🔧 Correction des erreurs de compilation Rust..."]) (commands w).

(** The line a pass prints for a file it rewrote. *)
Definition report (path : string) : string := "✅ Corrigé " +:+ path.

(** [os.path.exists(path)] in the world [w]. *)
Definition present (w : world) (path : string) : bool :=
  bool_decide (is_Some (files w !! resolve w path)).

(** The world one round of the loop of [fix_unused_imports] leaves. *)
Definition fixed_import (w : world) (path : string) : world :=
  match files w !! resolve w path with
  | Some f =>
      match unused_imports_subs (universal_newlines (data f)) with
      | Some out => rewritten path out f w
      | None => w
      end
  | None => w
  end.

(** A world in which the handler holds nothing to fix. *)
Definition quiet_world : world :=
  World "/srv/chat"
        {[ "/srv/chat/src/message_handler.rs" := File "fn handle() {}" 7 ]} [] [].

(** A tree without [src/message_store.rs], in which [src/error.rs] holds
    the duplicated line. *)
Definition incomplete_world : world :=
  World "/"
    {[ "/home/senke/Documents/veza-full-stack/veza-chat-server/src/message_handler.rs"
         := File "fn handle() {}" 1;
       "/home/senke/Documents/veza-full-stack/veza-chat-server/src/error.rs"
         := File "Self::MessageTooLong { .. } => 413,Self::MessageTooLong { .. } => 413," 1 ]}
    [] [].

(** Every path the script can open. *)
Definition targets : list string :=
  ["src/message_store.rs"; "src/message_handler.rs"; "src/error.rs"] ++ files_to_fix.

(** What every pass keeps from the world [w] it starts in: the working
    directory, the command log, the set of files, and the content of a
    file [key] that is no target. *)
Definition kept (key : string) (w w' : world) : Prop :=
  cwd w' = cwd w
  ∧ commands w' = commands w
  ∧ dom (files w') = dom (files w)
  ∧ ((∀ p, p ∈ targets → key ≠ resolve w p) → files w' !! key = files w !! key).

(** The world [main] leaves when the passes ended in [w]: the two
    closing lines and the build check. *)
Definition finished (w : world) : world :=
  World (cwd w) (files w)
        ((stdout w ++ ["✅ Toutes les corrections appliquées!"])
           ++ ["🔄 Vérification de la compilation..."])
        (commands w ++ ["cargo check"]).

End passes.

(* ================================================================== *)
(** * Strings *)
(* ================================================================== *)

Section strings.

Lemma app_cons a s t : String a s +:+ t = String a (s +:+ t).
Proof. reflexivity. Qed.

Lemma app_empty_l s : EmptyString +:+ s = s.
Proof. reflexivity. Qed.

Lemma app_empty_r s : s +:+ EmptyString = s.
Proof. induction s as [|a s IH]; [done|]. by rewrite app_cons, IH. Qed.

Lemma app_assoc_str s t u : (s +:+ t) +:+ u = s +:+ (t +:+ u).
Proof. induction s as [|a s IH]; [done|]. by rewrite !app_cons, IH. Qed.

Lemma length_app_str s t : String.length (s +:+ t) = String.length s + String.length t.
Proof. induction s as [|a s IH]; [done|]. rewrite app_cons. simpl. by rewrite IH. Qed.

Lemma substring_prefix t u : substring 0 (String.length t) (t +:+ u) = t.
Proof.
  induction t as [|b t IH]; [by destruct u|].
  rewrite app_cons. simpl. by rewrite IH.
Qed.

Lemma substring_app_mid s t u :
  substring (String.length s) (String.length t) (s +:+ (t +:+ u)) = t.
Proof.
  induction s as [|a s IH]; [exact (substring_prefix t u)|].
  rewrite app_cons. simpl. apply IH.
Qed.

Lemma prefix_app s t : String.prefix s (s +:+ t) = true.
Proof.
  induction s as [|a s IH]; [by destruct t|].
  rewrite app_cons. simpl. destruct (ascii_dec a a); [done|congruence].
Qed.

Lemma prefix_inv s t : String.prefix s t = true → ∃ u, t = s +:+ u.
Proof.
  revert t. induction s as [|a s IH]; intros t H.
  - by exists t.
  - destruct t as [|b t]; simpl in H; [done|].
    destruct (ascii_dec a b) as [->|]; [|done].
    destruct (IH _ H) as [u ->]. by exists u.
Qed.

Lemma universal_newlines_plain s :
  all_chars (differs carriage_return) s = true → Fs.universal_newlines s = s.
Proof.
  induction s as [|a s IH]; [done|]. cbn [all_chars Fs.universal_newlines].
  intros [Ha Hs]%andb_true_iff. unfold differs in Ha.
  apply negb_true_iff in Ha. rewrite Ha. by rewrite IH.
Qed.

End strings.

(* ================================================================== *)
(** * The matcher on literal text and on runs of a class *)
(* ================================================================== *)

Section matcher.
Import Re.

Lemma match_lit_app L p s pos caps :
  match_nodes (lit L ++ p) (L +:+ s) pos caps
  = match_nodes p s (pos + String.length L) caps.
Proof.
  revert pos. induction L as [|a L IH]; intros pos.
  - simpl. by rewrite Nat.add_0_r.
  - rewrite app_cons. simpl. rewrite Ascii.eqb_refl.
    unfold lit in IH. rewrite IH. f_equal. lia.
Qed.


Lemma match_lit_prefix L s pos caps :
  match_nodes (lit L) s pos caps
  = if String.prefix L s then Some (pos + String.length L, caps) else None.
Proof.
  revert s pos. induction L as [|a L IH]; intros s pos.
  - simpl. rewrite Nat.add_0_r. by destruct s.
  - destruct s as [|b s]; simpl; [done|].
    destruct (ascii_dec a b) as [->|Hne].
    + rewrite Ascii.eqb_refl. unfold lit in IH. rewrite IH.
      replace (S pos + String.length L) with (pos + S (String.length L)) by lia. done.
    + destruct (Ascii.eqb b a) eqn:E; [|done].
      apply Ascii.eqb_eq in E. congruence.
Qed.

Lemma match_at_lit L s :
  match_at (lit L) s
  = if String.prefix L s then Some (String.length L, []) else None.
Proof. unfold match_at. by rewrite match_lit_prefix. Qed.

(** A greedy run: when the text is a run [u] of accepted characters
    followed by [v], which starts with none, and the continuation
    succeeds at [v], the repetition takes all of [u]. *)
Lemma match_star_run c k u v pos caps r :
  all_chars (accepts c) u = true →
  match v with String b _ => accepts c b = false | EmptyString => True end →
  k v (pos + String.length u) caps = Some r →
  match_star c k (u +:+ v) pos caps = Some r.
Proof.
  revert pos. induction u as [|a u IH]; intros pos Hu Hv Hk.
  - rewrite app_empty_l. simpl in Hk. rewrite Nat.add_0_r in Hk.
    destruct v as [|b v]; simpl; [done|]. by rewrite Hv.
  - rewrite app_cons. simpl in *. apply andb_true_iff in Hu as [Ha Hu].
    rewrite Ha. rewrite (IH (S pos)); [done..|].
    by replace (S pos + String.length u) with (pos + S (String.length u)) by lia.
Qed.


End matcher.

(* ================================================================== *)
(** * The scan of [re.sub] *)
(* ================================================================== *)

Section scan.
Import Re.
Variables (p : list node) (t : list titem).

Lemma scan_skip m s limit :
  subn_scan p t (m +:+ s) (String.length m) limit = subn_scan p t s 0 limit.
Proof. induction m as [|a m IH]; [done|]. rewrite app_cons. simpl. apply IH. Qed.

(** Where the pattern does not match, or no replacement is left, the
    character is copied. *)
Lemma scan_copy a s limit :
  (if exhausted limit then None else match_at p (String a s)) = None →
  subn_scan p t (String a s) 0 limit
  = (String a (subn_scan p t s 0 limit).1, (subn_scan p t s 0 limit).2).
Proof. intros H. simpl. by rewrite H. Qed.

(** A non-empty match is replaced and the scan resumes behind it. *)
Lemma scan_replace m s limit caps :
  m ≠ EmptyString →
  exhausted limit = false →
  match_at p (m +:+ s) = Some (String.length m, caps) →
  subn_scan p t (m +:+ s) 0 limit
  = (expand t (m +:+ s) caps +:+ (subn_scan p t s 0 (spend limit)).1,
     S (subn_scan p t s 0 (spend limit)).2).
Proof.
  intros Hm Hl Hmatch. destruct m as [|a m]; [done|].
  rewrite app_cons in *. simpl. rewrite Hl, Hmatch.
  simpl. by rewrite scan_skip.
Qed.

Lemma scan_exhausted s : subn_scan p t s 0 (Some 0) = (s, 0).
Proof.
  induction s as [|a s IH]; [done|].
  rewrite scan_copy by done. by rewrite IH.
Qed.

(** A scan that reports no replacement returns its input. *)
Lemma scan_count_zero s limit :
  (subn_scan p t s 0 limit).2 = 0 → (subn_scan p t s 0 limit).1 = s.
Proof.
  induction s as [|a s IH]; simpl.
  - by destruct (if exhausted limit then None else match_at p EmptyString) as [[??]|].
  - destruct (if exhausted limit then None else match_at p (String a s)) as [[[|n] caps]|];
      simpl; [done..|].
    intros H. by rewrite IH.
Qed.

(** A text the pattern matches nowhere is returned as it is. *)
Lemma scan_settled s limit :
  Rules.search p s = false → subn_scan p t s 0 limit = (s, 0).
Proof.
  induction s as [|a s IH]; simpl.
  - destruct (match_at p EmptyString); [done|]. by destruct (exhausted limit).
  - destruct (match_at p (String a s)); [done|]. intros H.
    rewrite IH by done. by destruct (exhausted limit).
Qed.

(** The scan copies a prefix in which no match starts. *)
Lemma scan_copy_prefix pre rest limit :
  (∀ u v, pre = u +:+ v → v ≠ EmptyString → match_at p (v +:+ rest) = None) →
  subn_scan p t (pre +:+ rest) 0 limit
  = (pre +:+ (subn_scan p t rest 0 limit).1, (subn_scan p t rest 0 limit).2).
Proof.
  induction pre as [|a pre IH]; intros H.
  - rewrite !app_empty_l. by destruct (subn_scan p t rest 0 limit).
  - rewrite !app_cons. rewrite scan_copy.
    + rewrite IH; [done|]. intros u v -> Hv. apply (H (String a u) v); done.
    + rewrite <- app_cons. rewrite (H EmptyString (String a pre)) by done.
      by destruct (exhausted limit).
Qed.

End scan.

(** ** Literal patterns whose first character does not come back

    Two occurrences of such a text never overlap, so an occurrence of [L]
    in [pre +:+ L +:+ post] that starts inside [pre] lies inside [pre]. *)

Section literal.
Import Re.

Lemma prefix_border a M u v :
  all_chars (differs a) M = true →
  String.prefix M u = false →
  String.prefix M (u +:+ String a v) = false.
Proof.
  revert u. induction M as [|b M IH]; intros u HM Hp.
  - by destruct u.
  - simpl in HM. apply andb_true_iff in HM as [Hb HM].
    destruct u as [|c u].
    + rewrite app_empty_l. simpl. destruct (ascii_dec b a) as [->|]; [|done].
      unfold differs in Hb. by rewrite Ascii.eqb_refl in Hb.
    + rewrite app_cons. simpl in *. destruct (ascii_dec b c); [|done]. by apply IH.
Qed.

Lemma no_match_before a L' pre post :
  all_chars (differs a) L' = true →
  occurs (String a L') pre = false →
  ∀ u v, pre = u +:+ v → v ≠ EmptyString →
    match_at (lit (String a L')) (v +:+ (String a L' +:+ post)) = None.
Proof.
  intros HL Hocc u v -> Hv. rewrite match_at_lit.
  assert (String.prefix (String a L') v = false) as Hp.
  { clear Hv. induction u as [|c u IH].
    - rewrite app_empty_l in Hocc. destruct v; simpl in *; [done|].
      by apply orb_false_iff in Hocc as [-> _].
    - rewrite app_cons in Hocc. simpl in Hocc.
      apply orb_false_iff in Hocc as [_ Hocc]. by apply IH. }
  destruct v as [|c v]; [done|]. rewrite app_cons. simpl in *.
  destruct (ascii_dec a c); [|done].
  rewrite app_cons. by rewrite prefix_border.
Qed.

(** Scanning for [L] up to and including its first occurrence. *)
Lemma scan_first_occurrence a L' t pre post limit :
  all_chars (differs a) L' = true →
  occurs (String a L') pre = false →
  exhausted limit = false →
  subn_scan (lit (String a L')) t (pre +:+ (String a L' +:+ post)) 0 limit
  = (pre +:+ (expand t (String a L' +:+ post) []
              +:+ (subn_scan (lit (String a L')) t post 0 (spend limit)).1),
     S (subn_scan (lit (String a L')) t post 0 (spend limit)).2).
Proof.
  intros HL Hocc Hlim.
  rewrite scan_copy_prefix by (by apply no_match_before).
  rewrite scan_replace with (caps := []); [done..|].
  rewrite match_at_lit. by rewrite prefix_app.
Qed.

End literal.

(* ================================================================== *)
(** * Rule sets *)
(* ================================================================== *)

Section rules.
Import Rules.

Lemma usable_inv r :
  usable r = true →
  ∃ p t, Re.compile (pattern r) = Some p
         ∧ Re.parse_template (replacement r) (Re.groups p) = Some t.
Proof.
  unfold usable. destruct (Re.compile (pattern r)) as [p|]; [|done].
  intros [t Ht]%bool_decide_eq_true. by exists p, t.
Qed.

Lemma apply_rule_n_scan r p t text :
  Re.compile (pattern r) = Some p →
  Re.parse_template (replacement r) (Re.groups p) = Some t →
  apply_rule_n r text
  = Some (Re.subn_scan p t text 0 (Re.limit_of (max_applications r))).
Proof. intros Hp Ht. unfold apply_rule_n, Re.subn. rewrite Hp. simpl. by rewrite Ht. Qed.

Lemma apply_rule_fst r text : apply_rule r text = fst <$> apply_rule_n r text.
Proof. done. Qed.

Lemma apply_rules_fst rs text : apply_rules rs text = fst <$> apply_rules_n rs text.
Proof.
  revert text. induction rs as [|r rs IH]; intros text; [done|].
  simpl. rewrite apply_rule_fst.
  destruct (apply_rule_n r text) as [[text' n]|]; [|done].
  simpl. rewrite IH. by destruct (apply_rules_n rs text') as [[out m]|].
Qed.

(** Usable rules never fail. *)
Lemma apply_rules_n_total rs text :
  forallb usable rs = true → is_Some (apply_rules_n rs text).
Proof.
  revert text. induction rs as [|r rs IH]; intros text H; [by eexists|].
  simpl in H. apply andb_true_iff in H as [Hr Hrs].
  destruct (usable_inv _ Hr) as (p & t & Hp & Ht).
  simpl. rewrite (apply_rule_n_scan _ _ _ _ Hp Ht).
  destruct (Re.subn_scan p t text 0 _) as [text' n]. simpl.
  destruct (IH text' Hrs) as [[out m] ->]. by eexists.
Qed.

Lemma apply_rules_total rs text :
  forallb usable rs = true → is_Some (apply_rules rs text).
Proof.
  intros H. rewrite apply_rules_fst.
  destruct (apply_rules_n_total rs text H) as [x ->]. by eexists.
Qed.

Lemma apply_rule_n_zero r text out :
  apply_rule_n r text = Some (out, 0) → out = text.
Proof.
  unfold apply_rule_n, Re.subn.
  destruct (Re.compile (pattern r)) as [p|]; [|done]. simpl.
  destruct (Re.parse_template _ _) as [t|]; [|done]. simpl.
  intros [= H]. pose proof (scan_count_zero p t text (Re.limit_of (max_applications r))) as Hz.
  rewrite H in Hz. by apply Hz.
Qed.

(** A run of the rule set that counts no replacement returns its input. *)
Lemma apply_rules_n_zero rs text out :
  apply_rules_n rs text = Some (out, 0) → out = text.
Proof.
  revert text. induction rs as [|r rs IH]; intros text; simpl; [congruence|].
  destruct (apply_rule_n r text) as [[text' n]|] eqn:Hr; [|done]. simpl.
  destruct (apply_rules_n rs text') as [[out' m]|] eqn:Hrs; [|done]. simpl.
  intros [= -> Hnm]. assert (n = 0 ∧ m = 0) as [-> ->] by lia.
  apply apply_rule_n_zero in Hr as ->. by apply IH.
Qed.

(** On a settled text the rule set replaces nothing. *)
Lemma apply_rules_n_settled rs text :
  forallb usable rs = true →
  settled rs text = true →
  apply_rules_n rs text = Some (text, 0).
Proof.
  induction rs as [|r rs IH]; intros Hu Hs; [done|].
  simpl in Hu, Hs. apply andb_true_iff in Hu as [Hr Hu].
  apply andb_true_iff in Hs as [Hsr Hs].
  destruct (usable_inv _ Hr) as (p & t & Hp & Ht). rewrite Hp in Hsr.
  simpl. rewrite (apply_rule_n_scan _ _ _ _ Hp Ht).
  rewrite scan_settled by (by apply negb_true_iff). simpl.
  by rewrite IH.
Qed.

Lemma apply_rules_app rs1 rs2 text :
  apply_rules (rs1 ++ rs2) text = apply_rules rs1 text ≫= apply_rules rs2.
Proof.
  revert text. induction rs1 as [|r rs1 IH]; intros text; [done|].
  simpl. destruct (apply_rule r text) as [text'|]; [|done]. simpl. apply IH.
Qed.

Lemma rewrite_row_fields_rules fields content :
  Script.rewrite_row_fields fields content = apply_rules (expand_fields fields) content.
Proof.
  revert content. induction fields as [|f fields IH]; intros content; [done|].
  change (expand_fields (f :: fields)) with (field_rule f :: expand_fields fields).
  cbn [Script.rewrite_row_fields apply_rules].
  unfold apply_rule, field_rule. cbn [pattern replacement max_applications].
  destruct (Re.sub _ _ content 0) as [content'|]; [|reflexivity]. cbn [mbind option_bind]. apply IH.
Qed.

(** One [re.sub] statement on either side of a refinement. *)
Ltac step_sub :=
  match goal with
  | |- context [Re.sub ?a ?b ?c ?d ≫= _] =>
      destruct (Re.sub a b c d); cbn [mbind option_bind]; [|reflexivity]
  end.

Lemma message_handler_subs_rules content :
  Script.message_handler_subs content = apply_rules message_handler_rules content.
Proof.
  unfold Script.message_handler_subs, message_handler_rules.
  cbn [apply_rules]. unfold apply_rule. cbn [pattern replacement max_applications].
  step_sub. by destruct (Re.sub _ _ _ 0).
Qed.

Lemma error_severity_subs_rules content :
  Script.error_severity_subs content = apply_rules error_severity_rules content.
Proof.
  unfold Script.error_severity_subs, error_severity_rules.
  cbn [apply_rules]. unfold apply_rule. cbn [pattern replacement max_applications].
  by destruct (Re.sub _ _ content 1).
Qed.

Lemma unused_imports_subs_rules content :
  Script.unused_imports_subs content = apply_rules unused_imports_rules content.
Proof.
  unfold Script.unused_imports_subs, unused_imports_rules.
  cbn [apply_rules]. unfold apply_rule. cbn [pattern replacement max_applications].
  do 10 step_sub. by destruct (Re.sub _ _ _ 0).
Qed.

Lemma message_store_subs_rules content :
  Script.message_store_subs content = apply_rules message_store_rules content.
Proof.
  unfold message_store_rules. rewrite apply_rules_app.
  unfold Script.message_store_subs.
  cbn [apply_rules]. unfold apply_rule. cbn [pattern replacement max_applications].
  do 7 step_sub. apply rewrite_row_fields_rules.
Qed.

Lemma message_store_rules_usable : forallb usable message_store_rules = true.
Proof. vm_compute. reflexivity. Qed.

Lemma message_handler_rules_usable : forallb usable message_handler_rules = true.
Proof. vm_compute. reflexivity. Qed.

Lemma error_severity_rules_usable : forallb usable error_severity_rules = true.
Proof. vm_compute. reflexivity. Qed.

Lemma unused_imports_rules_usable : forallb usable unused_imports_rules = true.
Proof. vm_compute. reflexivity. Qed.

End rules.

(* ================================================================== *)
(** * Literal rules *)
(* ================================================================== *)

Section literal_rules.
Import Re.

Lemma expand_tlit L t s caps : expand (tlit L ++ t) s caps = L +:+ expand t s caps.
Proof.
  induction L as [|a L IH]; [done|].
  rewrite app_cons. cbn [tlit list_ascii_of_string fmap list_fmap app expand].
  by rewrite <- IH.
Qed.

Lemma expand_tlit_only L s caps : expand (tlit L) s caps = L.
Proof.
  rewrite <- (app_nil_r (tlit L)). rewrite expand_tlit. simpl. apply app_empty_r.
Qed.

Lemma groups_lit L : groups (lit L) = 0.
Proof.
  unfold groups, lit. induction (list_ascii_of_string L) as [|a l IH]; [done|].
  rewrite fmap_cons, filter_cons_False; [done|]. by intros [].
Qed.

Lemma search_lit L s : Rules.search (lit L) s = occurs L s.
Proof.
  induction s as [|a s IH]; cbn [Rules.search occurs]; rewrite match_at_lit.
  - by destruct (String.prefix L EmptyString).
  - rewrite IH. by destruct (String.prefix L (String a s)).
Qed.

Lemma prefix_app_l L M s : String.prefix (L +:+ M) s = true → String.prefix L s = true.
Proof.
  revert s. induction L as [|a L IH]; intros s; [by destruct s|].
  rewrite app_cons. destruct s as [|b s]; simpl; [done|].
  destruct (ascii_dec a b); [apply IH|done].
Qed.

Lemma occurs_app_l L M s : occurs L s = false → occurs (L +:+ M) s = false.
Proof.
  induction s as [|a s IH]; cbn [occurs]; intros [Hp Ho]%orb_false_iff.
  - apply orb_false_iff. split; [|done].
    destruct (String.prefix (L +:+ M) EmptyString) eqn:E; [|done].
    apply prefix_app_l in E. congruence.
  - apply orb_false_iff. split; [|by apply IH].
    destruct (String.prefix (L +:+ M) (String a s)) eqn:E; [|done].
    apply prefix_app_l in E. congruence.
Qed.

Lemma literal_rule_subn pattern L repl R text count :
  literal_rule pattern L repl R = true →
  subn pattern repl text count
  = Some (subn_scan (lit L) (tlit R) text 0 (limit_of count)).
Proof.
  intros [Hp Ht]%andb_true_iff.
  apply bool_decide_eq_true in Hp. apply bool_decide_eq_true in Ht.
  unfold subn. rewrite Hp. simpl. rewrite groups_lit, Ht. done.
Qed.

(** Without an occurrence of [L] the rule returns the text as it is. *)
Lemma literal_rule_settled pattern L repl R text count :
  literal_rule pattern L repl R = true →
  occurs L text = false →
  subn pattern repl text count = Some (text, 0).
Proof.
  intros Hr Ho. rewrite (literal_rule_subn _ _ _ _ _ _ Hr).
  rewrite scan_settled; [done|]. by rewrite search_lit.
Qed.

(** The first occurrence of [L] is replaced whatever follows it. *)
Lemma literal_rule_first pattern a L' repl R pre post count :
  literal_rule pattern (String a L') repl R = true →
  all_chars (differs a) L' = true →
  occurs (String a L') pre = false →
  subn pattern repl (pre +:+ (String a L' +:+ post)) count
  = Some (pre +:+ (R +:+ (subn_scan (lit (String a L')) (tlit R) post 0
                            (spend (limit_of count))).1),
          S (subn_scan (lit (String a L')) (tlit R) post 0 (spend (limit_of count))).2).
Proof.
  intros Hr Ha Ho. rewrite (literal_rule_subn _ _ _ _ _ _ Hr).
  rewrite scan_first_occurrence; [|done..|by destruct count].
  by rewrite expand_tlit_only.
Qed.

End literal_rules.

(* ================================================================== *)
(** * Properties of the rewriting passes *)
(* ================================================================== *)

Section order.
Import Rules.

(** C7.  Each pass of the script is the left-to-right composition of its
    rules in the order the source declares them: the rule that comes next
    works on the text the rules before it produced.  The order matters:
    in the unused-imports pass, exchanging [, Deserialize] (position 4)
    with [, Serialize, Deserialize] (position 7) changes the result on
    an import line of serde. *)
Theorem C7_rules_compose_in_declared_order :
  (∀ content, Script.message_store_subs content
              = apply_rules message_store_rules content)
  ∧ (∀ content, Script.message_handler_subs content
                = apply_rules message_handler_rules content)
  ∧ (∀ content, Script.error_severity_subs content
                = apply_rules error_severity_rules content)
  ∧ (∀ content, Script.unused_imports_subs content
                = apply_rules unused_imports_rules content)
  ∧ (∀ rs r text, apply_rules (rs ++ [r]) text = apply_rules rs text ≫= apply_rule r)
  ∧ apply_rules unused_imports_rules "use serde::{Value, Serialize, Deserialize};"
    = Some "use serde::{Value, Serialize};"
  ∧ apply_rules (swap 4 7 unused_imports_rules) "use serde::{Value, Serialize, Deserialize};"
    = Some "use serde::{Value};".
Proof.
  split_and!.
  - apply message_store_subs_rules.
  - apply message_handler_subs_rules.
  - apply error_severity_subs_rules.
  - apply unused_imports_subs_rules.
  - intros rs r text. rewrite apply_rules_app.
    destruct (apply_rules rs text) as [text'|]; [|done].
    cbn [mbind option_bind apply_rules]. by destruct (apply_rule r text').
  - vm_compute. reflexivity.
  - vm_compute. reflexivity.
Qed.

End order.

Section field_access.
Import Rules.



Lemma plain_field_rewrites field text :
  plain_field field = true →
  occurs "row." text = false →
  Re.sub ("row\." +:+ field) (accessor field) ("row." +:+ field +:+ text) 0
  = Some (accessor field +:+ text).
Proof.
  intros Hf Ho. unfold Re.sub.
  rewrite (literal_rule_subn _ _ _ _ _ _ Hf).
  rewrite <- app_assoc_str.
  rewrite scan_replace with (caps := []).
  - rewrite expand_tlit_only. rewrite scan_settled; [done|].
    rewrite search_lit. by apply occurs_app_l.
  - done.
  - done.
  - rewrite match_at_lit. by rewrite prefix_app.
Qed.


End field_access.

Section bounded_deletion.
Import Rules.

Lemma duplicate_arm_rule :
  literal_rule "Self::MessageTooLong \{ \.\. \} => 413," duplicate_arm "" "" = true.
Proof. vm_compute. reflexivity. Qed.

Lemma duplicate_arm_border :
  ∃ L', duplicate_arm = String "S" L' ∧ all_chars (differs "S") L' = true.
Proof. eexists. split; [reflexivity|]. vm_compute. reflexivity. Qed.

(** Deleting the occurrences of the line one after the other. *)
Lemma duplicate_arm_first pre post count :
  occurs duplicate_arm pre = false →
  Re.subn "Self::MessageTooLong \{ \.\. \} => 413," "" (pre +:+ duplicate_arm +:+ post) count
  = Some (pre +:+ (Re.subn_scan (lit duplicate_arm) (tlit "") post 0
                     (Re.spend (Re.limit_of count))).1,
          S (Re.subn_scan (lit duplicate_arm) (tlit "") post 0
               (Re.spend (Re.limit_of count))).2).
Proof.
  intros Ho. destruct duplicate_arm_border as (L' & HL & Hb).
  pose proof duplicate_arm_rule as Hr. rewrite HL in *.
  by rewrite (literal_rule_first _ _ _ _ _ _ _ _ Hr Hb Ho).
Qed.

Lemma duplicate_arm_scan pre post limit :
  Re.exhausted limit = false →
  occurs duplicate_arm pre = false →
  Re.subn_scan (lit duplicate_arm) (tlit "") (pre +:+ duplicate_arm +:+ post) 0 limit
  = (pre +:+ (Re.subn_scan (lit duplicate_arm) (tlit "") post 0 (Re.spend limit)).1,
     S (Re.subn_scan (lit duplicate_arm) (tlit "") post 0 (Re.spend limit)).2).
Proof.
  intros Hl Ho. destruct duplicate_arm_border as (L' & HL & Hb). rewrite HL in *.
  rewrite scan_first_occurrence by done. by rewrite expand_tlit_only.
Qed.

(** C5.  A text with three occurrences of the line
    [Self::MessageTooLong { .. } => 413,] has the shape
    [a L b L c L d] with no occurrence inside [a], [b], [c], [d] (the
    scan of [re] counts three matches in it).  [fix_error_severity],
    whose [re.sub] has [count=1], deletes the first occurrence and
    returns [a b L c L d]: the two later occurrences and all the text
    around them are unchanged. *)
Theorem C5_count_one_deletes_first_occurrence (a b c d : string) :
  occurs duplicate_arm a = false →
  occurs duplicate_arm b = false →
  occurs duplicate_arm c = false →
  occurs duplicate_arm d = false →
  let text := a +:+ duplicate_arm +:+ b +:+ duplicate_arm +:+ c +:+ duplicate_arm +:+ d in
  Re.subn "Self::MessageTooLong \{ \.\. \} => 413," "" text 0
  = Some (a +:+ b +:+ c +:+ d, 3)
  ∧ Script.error_severity_subs text
    = Some (a +:+ b +:+ duplicate_arm +:+ c +:+ duplicate_arm +:+ d).
Proof.
  intros Ha Hb Hc Hd text. subst text. split.
  - rewrite duplicate_arm_first by done. cbn [Re.limit_of Re.spend fmap option_fmap option_map].
    rewrite !duplicate_arm_scan by done. cbn [Re.spend fmap option_fmap option_map fst snd].
    rewrite scan_settled by (by rewrite search_lit). done.
  - unfold Script.error_severity_subs, Re.sub.
    rewrite duplicate_arm_first by done.
    cbn [Re.limit_of Re.spend fmap option_fmap option_map Nat.pred].
    by rewrite scan_exhausted.
Qed.

Lemma C5_count_one_witness :
  let text := "A => 1, " +:+ duplicate_arm +:+ " B => 2, " +:+ duplicate_arm
              +:+ " C => 3, " +:+ duplicate_arm +:+ " _ => 500" in
  Re.subn "Self::MessageTooLong \{ \.\. \} => 413," "" text 0
  = Some ("A => 1, " +:+ " B => 2, " +:+ " C => 3, " +:+ " _ => 500", 3)
  ∧ Script.error_severity_subs text
    = Some ("A => 1, " +:+ " B => 2, " +:+ duplicate_arm +:+ " C => 3, "
            +:+ duplicate_arm +:+ " _ => 500").
Proof.
  apply (C5_count_one_deletes_first_occurrence "A => 1, " " B => 2, " " C => 3, " " _ => 500");
    vm_compute; reflexivity.
Defined.

End bounded_deletion.

Section error_import.
Import Rules.




End error_import.

Section structural_rewrite.
Import Re.

Lemma groups_call_pattern head : groups (call_pattern head) = 1.
Proof.
  unfold groups, call_pattern. rewrite filter_app, length_app.
  change (length (filter _ (lit head))) with (groups (lit head)).
  by rewrite groups_lit.
Qed.

Lemma call_match head arg rest :
  arg ≠ EmptyString →
  all_chars (differs ")") arg = true →
  match_at (call_pattern head) ((head +:+ arg +:+ ")") +:+ rest)
  = Some (String.length (head +:+ arg +:+ ")"),
          [(String.length head, Some (String.length head + String.length arg))]).
Proof.
  intros Hne Harg. unfold match_at, call_pattern.
  rewrite !app_assoc_str. rewrite match_lit_app.
  destruct arg as [|a arg]; [done|]. cbn [all_chars] in Harg.
  apply andb_true_iff in Harg as [Ha Harg].
  rewrite !app_cons. cbn [match_nodes accepts]. unfold differs in Ha. rewrite Ha.
  erewrite match_star_run; [reflexivity|exact Harg|by vm_compute|].
  cbn [match_nodes accepts]. rewrite Ascii.eqb_refl.
  f_equal. f_equal.
  - repeat first [rewrite length_app_str | progress cbn [String.length]]. lia.
  - cbn [open_group close_group app existsb span_open String.length].
    do 3 f_equal. lia.
Qed.

Lemma call_expand head head' arg rest :
  expand (call_template head') ((head +:+ arg +:+ ")") +:+ rest)
    [(String.length head, Some (String.length head + String.length arg))]
  = head' +:+ arg +:+ ")".
Proof.
  unfold call_template. rewrite expand_tlit. f_equal.
  cbn [expand group_text Nat.sub lookup list_lookup].
  replace (String.length head + String.length arg - String.length head)
    with (String.length arg) by lia.
  rewrite !app_assoc_str. by rewrite substring_app_mid.
Qed.

(** One replacement of a call, whatever follows the call. *)
Lemma call_rule_sub pattern head repl head' arg rest :
  call_rule pattern head repl head' = true →
  arg ≠ EmptyString →
  all_chars (differs ")") arg = true →
  sub pattern repl (head +:+ arg +:+ ")" +:+ rest) 0
  = (fun out => head' +:+ arg +:+ ")" +:+ out) <$> sub pattern repl rest 0.
Proof.
  intros [Hp Ht]%andb_true_iff Hne Harg.
  apply bool_decide_eq_true in Hp. apply bool_decide_eq_true in Ht.
  unfold sub, subn. rewrite Hp. cbn [mbind option_bind].
  rewrite groups_call_pattern, Ht. cbn [mbind option_bind fmap option_fmap option_map fst limit_of].
  replace (head +:+ arg +:+ ")" +:+ rest) with ((head +:+ arg +:+ ")") +:+ rest)
    by (by rewrite !app_assoc_str).
  rewrite scan_replace with (caps := [(String.length head,
                                       Some (String.length head + String.length arg))]).
  - rewrite call_expand. cbn [fst spend fmap option_fmap option_map].
    by rewrite !app_assoc_str.
  - destruct head; [by destruct arg|done].
  - done.
  - by apply call_match.
Qed.


End structural_rewrite.

Section handler_calls.
Import Rules.




End handler_calls.

(* ================================================================== *)
(** * Properties of the file handling *)
(* ================================================================== *)

Section files.
Import Fs Script.

Lemma fix_message_store_errors_eq :
  fix_message_store_errors = rewrite_file "src/message_store.rs" message_store_subs.
Proof. reflexivity. Qed.

Lemma fix_message_handler_errors_eq :
  fix_message_handler_errors = rewrite_file "src/message_handler.rs" message_handler_subs.
Proof. reflexivity. Qed.

Lemma fix_error_severity_eq :
  fix_error_severity = rewrite_file "src/error.rs" error_severity_subs.
Proof. reflexivity. Qed.

Lemma rewrite_file_missing path subs w :
  files w !! resolve w path = None →
  rewrite_file path subs w = (w, Raise (FileNotFoundError path)).
Proof.
  intros H. unfold rewrite_file, mbind, io_bind, bind, read_file. by rewrite H.
Qed.

Lemma rewrite_file_present path subs w f out :
  files w !! resolve w path = Some f →
  subs (universal_newlines (data f)) = Some out →
  rewrite_file path subs w = (rewritten path out f w, Ok tt).
Proof.
  intros Hf Hs. unfold rewrite_file, mbind, io_bind, bind, read_file.
  rewrite Hf, Hs. cbn [lift_re mret io_ret ret].
  unfold open_w. rewrite Hf. unfold write, set_files, resolve. cbn [cwd files stdout commands].
  rewrite lookup_insert_eq. cbn [default data mtime].
  rewrite insert_insert_eq. unfold print. cbn [cwd files stdout commands].
  unfold rewritten, resolve. by rewrite app_empty_l.
Qed.

Lemma rewrite_file_failed path subs w f :
  files w !! resolve w path = Some f →
  subs (universal_newlines (data f)) = None →
  rewrite_file path subs w = (w, Raise ReError).
Proof.
  intros Hf Hs. unfold rewrite_file, mbind, io_bind, bind, read_file.
  by rewrite Hf, Hs.
Qed.

End files.

Section single_file_passes.
Import Fs Script Rules.

Lemma pass_fix_eq ps : pass_fix ps = rewrite_file (pass_path ps) (pass_subs ps).
Proof. by destruct ps. Qed.

Lemma pass_subs_rules ps content :
  pass_subs ps content = apply_rules (pass_rules ps) content.
Proof.
  destruct ps; [apply message_store_subs_rules | apply message_handler_subs_rules
               | apply error_severity_subs_rules].
Qed.

Lemma pass_rules_usable ps : forallb usable (pass_rules ps) = true.
Proof.
  destruct ps; [apply message_store_rules_usable | apply message_handler_rules_usable
               | apply error_severity_rules_usable].
Qed.

(** C2 (as the code has it).  A pass writes its text back whether or
    not a rule changed it: the file ends with the text the rules
    returned and a stamp advanced by the truncation and by the write.
    When the rules count no replacement the text written is the text
    read (the content of the file with its line ends read as [\n]), so a
    file without carriage return keeps its content, and the modification
    stamp still moves. *)
Theorem C2_text_is_written_back_unconditionally
    (ps : pass) (w : world) (f : file) (out : string) (n : nat) :
  files w !! resolve w (pass_path ps) = Some f →
  apply_rules_n (pass_rules ps) (universal_newlines (data f)) = Some (out, n) →
  pass_fix ps w = (rewritten (pass_path ps) out f w, Ok tt)
  ∧ files (pass_fix ps w).1 !! resolve w (pass_path ps)
    = Some (File out (S (S (mtime f))))
  ∧ (n = 0 → out = universal_newlines (data f))
  ∧ (n = 0 → all_chars (differs carriage_return) (data f) = true → out = data f).
Proof.
  intros Hf Hn.
  assert (pass_fix ps w = (rewritten (pass_path ps) out f w, Ok tt)) as Hfix.
  { rewrite pass_fix_eq. apply rewrite_file_present; [done|].
    rewrite pass_subs_rules, apply_rules_fst. by rewrite Hn. }
  split_and!; [done| | |].
  - rewrite Hfix. unfold rewritten. cbn [fst files]. apply lookup_insert_eq.
  - intros ->. by apply apply_rules_n_zero in Hn.
  - intros -> Hcr. apply apply_rules_n_zero in Hn as ->.
    by apply universal_newlines_plain.
Qed.

Lemma C2_text_is_written_back_witness :
  pass_fix MessageHandler quiet_world
  = (rewritten "src/message_handler.rs" "fn handle() {}" (File "fn handle() {}" 7)
       quiet_world, Ok tt)
  ∧ files (pass_fix MessageHandler quiet_world).1 !! "/srv/chat/src/message_handler.rs"
    = Some (File "fn handle() {}" 9)
  ∧ (0 = 0 → "fn handle() {}" = universal_newlines "fn handle() {}")
  ∧ (0 = 0 → all_chars (differs carriage_return) "fn handle() {}" = true
     → "fn handle() {}" = "fn handle() {}").
Proof.
  apply (C2_text_is_written_back_unconditionally MessageHandler quiet_world
           (File "fn handle() {}" 7) "fn handle() {}" 0);
    vm_compute; reflexivity.
Defined.

(** C2 as stated fails: the rules replace nothing in the handler of
    [quiet_world], and the file is written all the same. *)
Lemma C2_unchanged_file_is_touched :
  apply_rules_n message_handler_rules "fn handle() {}" = Some ("fn handle() {}", 0)
  ∧ files quiet_world !! "/srv/chat/src/message_handler.rs"
    = Some (File "fn handle() {}" 7)
  ∧ files (fix_message_handler_errors quiet_world).1 !! "/srv/chat/src/message_handler.rs"
    = Some (File "fn handle() {}" 9)
  ∧ files (fix_message_handler_errors quiet_world).1 !! "/srv/chat/src/message_handler.rs"
    ≠ files quiet_world !! "/srv/chat/src/message_handler.rs".
Proof.
  split_and!; [vm_compute; reflexivity..|]. vm_compute. discriminate.
Qed.

End single_file_passes.

Section aborts.
Import Fs Script Rules.

Lemma bind_ok {A B} (m : io A) (k : A → io B) w w1 a :
  m w = (w1, Ok a) → (m ≫= k) w = k a w1.
Proof. intros H. unfold mbind, io_bind, bind. by rewrite H. Qed.

Lemma bind_raise {A B} (m : io A) (k : A → io B) w w1 e :
  m w = (w1, Raise e) → (m ≫= k) w = (w1, Raise e).
Proof. intros H. unfold mbind, io_bind, bind. by rewrite H. Qed.

Lemma prologue (k : io unit) w :
  is_dir w "/home/senke/Documents/veza-full-stack/veza-chat-server" = true →
  (print "🔧 Correction des erreurs de compilation Rust...";;
   chdir "/home/senke/Documents/veza-full-stack/veza-chat-server";; k) w
  = k (started w).
Proof.
  intros Hd. unfold mbind at 1. unfold io_bind, bind at 1. cbn [print].
  unfold mbind at 1. unfold io_bind, bind at 1. unfold chdir.
  change (is_dir (World _ (files w) _ _) ?d) with (is_dir w d). by rewrite Hd.
Qed.

Lemma prologue_missing (k : io unit) w :
  is_dir w "/home/senke/Documents/veza-full-stack/veza-chat-server" = false →
  (print "🔧 Correction des erreurs de compilation Rust...";;
   chdir "/home/senke/Documents/veza-full-stack/veza-chat-server";; k) w
  = (World (cwd w) (files w)
           (stdout w ++ ["🔧 Correction des erreurs de compilation Rust..."]) (commands w),
     Raise (FileNotFoundError "/home/senke/Documents/veza-full-stack/veza-chat-server")).
Proof.
  intros Hd. unfold mbind at 1. unfold io_bind, bind at 1. cbn [print].
  unfold mbind at 1. unfold io_bind, bind at 1. unfold chdir.
  change (is_dir (World _ (files w) _ _) ?d) with (is_dir w d). by rewrite Hd.
Qed.




(** C6 (as the code has it).  The write-back is [open(path, 'w')], which
    truncates the file, followed by [f.write(content)] into the same
    file.  Stopped before the first step the file holds its old text,
    stopped between the two it is empty, and after both it holds the
    new text. *)
Theorem C6_write_back_truncates_then_writes
    (w : world) (path content : string) (f : file) (n : nat) :
  files w !! resolve w path = Some f →
  data <$> files (interrupted n path content w) !! resolve w path
  = Some (match n with
          | 0 => data f
          | 1 => EmptyString
          | _ => content
          end)
  ∧ (open_w path;; write path content) w = (interrupted 2 path content w, Ok tt).
Proof.
  intros Hf. split.
  - destruct n as [|[|n]]; unfold interrupted, write_back_steps, run_steps;
      cbn [take]; rewrite ?take_nil; cbn [for_each];
      unfold mbind, mret, io_bind, io_ret, bind, ret, open_w, write.
    + cbn [fst]. by rewrite Hf.
    + rewrite Hf. cbn [fst set_files files]. by rewrite lookup_insert_eq.
    + rewrite Hf. unfold resolve. cbn [fst set_files files cwd].
      rewrite lookup_insert_eq. cbn [default data mtime fst files].
      rewrite lookup_insert_eq. cbn [fmap option_fmap option_map data].
      by rewrite app_empty_l.
  - unfold interrupted, write_back_steps, run_steps; cbn [take for_each].
    unfold mbind, mret, io_bind, io_ret, bind, ret, open_w, write. done.
Qed.

Lemma C6_write_back_witness :
  data <$> files (interrupted 1 "src/error.rs" "new text"
                    (World "/srv/chat" {[ "/srv/chat/src/error.rs" := File "old text" 3 ]} [] []))
           !! "/srv/chat/src/error.rs"
  = Some EmptyString
  ∧ (open_w "src/error.rs";; write "src/error.rs" "new text")
      (World "/srv/chat" {[ "/srv/chat/src/error.rs" := File "old text" 3 ]} [] [])
    = (interrupted 2 "src/error.rs" "new text"
         (World "/srv/chat" {[ "/srv/chat/src/error.rs" := File "old text" 3 ]} [] []),
       Ok tt).
Proof.
  apply (C6_write_back_truncates_then_writes
           (World "/srv/chat" {[ "/srv/chat/src/error.rs" := File "old text" 3 ]} [] [])
           "src/error.rs" "new text" (File "old text" 3) 1).
  vm_compute. reflexivity.
Defined.

(** C6 as stated fails: an interruption between the two steps leaves a
    file that holds neither the old nor the new text. *)
Lemma C6_interrupted_write_leaves_empty_file :
  let w := World "/srv/chat" {[ "/srv/chat/src/error.rs" := File "old text" 3 ]} [] [] in
  let seen := data <$> files (interrupted 1 "src/error.rs" "new text" w)
                         !! "/srv/chat/src/error.rs" in
  seen = Some EmptyString ∧ seen ≠ Some "old text" ∧ seen ≠ Some "new text".
Proof. split_and!; vm_compute; [reflexivity|discriminate..]. Qed.

End aborts.

Section idempotence.
Import Fs Script Rules.

(** C4 (as the code has it).  A text that no pattern of a pass matches
    goes through the rules of that pass with zero replacements and comes
    back byte for byte. *)
Theorem C4_settled_text_is_returned_unchanged (ps : pass) (text : string) :
  settled (pass_rules ps) text = true →
  apply_rules_n (pass_rules ps) text = Some (text, 0)
  ∧ pass_subs ps text = Some text.
Proof.
  intros Hs.
  assert (apply_rules_n (pass_rules ps) text = Some (text, 0)) as Hn.
  { apply apply_rules_n_settled; [apply pass_rules_usable|done]. }
  split; [done|]. rewrite pass_subs_rules, apply_rules_fst. by rewrite Hn.
Qed.

Lemma C4_settled_text_witness :
  apply_rules_n message_store_rules "let id: i64 = row.try_get(0)?;"
  = Some ("let id: i64 = row.try_get(0)?;", 0)
  ∧ message_store_subs "let id: i64 = row.try_get(0)?;"
    = Some "let id: i64 = row.try_get(0)?;".
Proof.
  apply (C4_settled_text_is_returned_unchanged MessageStore "let id: i64 = row.try_get(0)?;").
  vm_compute. reflexivity.
Defined.

(** C4 as stated fails: the output of the rules of
    [fix_message_store_errors] can still hold a pattern of the set, and
    a second run changes it again. *)
Lemma C4_second_run_changes_the_text :
  message_store_subs "Err(ChatError::ReactionAlreadyExists))"
  = Some "Err(ChatError::ReactionAlreadyExists)"
  ∧ message_store_subs "Err(ChatError::ReactionAlreadyExists)"
    = Some "Err(ChatError::ReactionAlreadyExists"
  ∧ ¬ (∀ text once, message_store_subs text = Some once →
                     message_store_subs once = Some once).
Proof.
  assert (message_store_subs "Err(ChatError::ReactionAlreadyExists))"
          = Some "Err(ChatError::ReactionAlreadyExists)") as H1
    by (vm_compute; reflexivity).
  assert (message_store_subs "Err(ChatError::ReactionAlreadyExists)"
          = Some "Err(ChatError::ReactionAlreadyExists") as H2
    by (vm_compute; reflexivity).
  split_and!; [done..|].
  intros H. specialize (H _ _ H1). rewrite H2 in H. discriminate.
Qed.

End idempotence.

Section unused_imports.
Import Fs Script Rules.

Lemma unused_imports_subs_total content : is_Some (unused_imports_subs content).
Proof.
  rewrite unused_imports_subs_rules.
  apply apply_rules_total, unused_imports_rules_usable.
Qed.

Lemma fix_unused_imports_in_eq path w :
  fix_unused_imports_in path w = (fixed_import w path, Ok tt).
Proof.
  unfold fix_unused_imports_in, fixed_import.
  unfold mbind at 1. unfold io_bind, bind at 1. unfold path_exists.
  destruct (files w !! resolve w path) as [f|] eqn:Hf.
  - rewrite bool_decide_eq_true_2 by (by eexists).
    destruct (unused_imports_subs_total (universal_newlines (data f))) as [out Hout]. rewrite Hout.
    by apply (rewrite_file_present path unused_imports_subs w f out).
  - rewrite bool_decide_eq_false_2 by (by intros [? ?]). done.
Qed.

Lemma for_each_fixed_import ps w :
  for_each ps fix_unused_imports_in w = (foldl fixed_import w ps, Ok tt).
Proof.
  revert w. induction ps as [|p ps IH]; intros w; [done|].
  cbn [for_each foldl]. rewrite (bind_ok _ _ _ _ _ (fix_unused_imports_in_eq p w)).
  apply IH.
Qed.

Lemma resolve_inj w p q : resolve w p = resolve w q → p = q.
Proof. unfold resolve. intros H. by do 2 apply String.app_inj in H. Qed.

Lemma fixed_import_cwd w p : cwd (fixed_import w p) = cwd w.
Proof.
  unfold fixed_import. destruct (files w !! resolve w p) as [f|]; [|done].
  by destruct (unused_imports_subs (universal_newlines (data f))).
Qed.

Lemma fixed_import_resolve w p q : resolve (fixed_import w p) q = resolve w q.
Proof. unfold resolve. by rewrite fixed_import_cwd. Qed.

Lemma fixed_import_commands w p : commands (fixed_import w p) = commands w.
Proof.
  unfold fixed_import. destruct (files w !! resolve w p) as [f|]; [|done].
  by destruct (unused_imports_subs (universal_newlines (data f))).
Qed.

Lemma fixed_import_stdout w p :
  stdout (fixed_import w p) = stdout w ++ (if present w p then [report p] else []).
Proof.
  unfold fixed_import, present. destruct (files w !! resolve w p) as [f|] eqn:Hf.
  - rewrite bool_decide_eq_true_2 by (by eexists).
    destruct (unused_imports_subs_total (universal_newlines (data f))) as [out Hout]. by rewrite Hout.
  - rewrite bool_decide_eq_false_2 by (by intros [? ?]). by rewrite app_nil_r.
Qed.

Lemma fixed_import_other w p key :
  key ≠ resolve w p → files (fixed_import w p) !! key = files w !! key.
Proof.
  intros Hne. unfold fixed_import. destruct (files w !! resolve w p) as [f|]; [|done].
  destruct (unused_imports_subs (universal_newlines (data f))); [|done].
  unfold rewritten. cbn [files]. by rewrite lookup_insert_ne.
Qed.

Lemma fixed_import_here w p :
  match files w !! resolve w p with
  | None => files (fixed_import w p) !! resolve w p = None
  | Some f => ∃ out, unused_imports_subs (universal_newlines (data f)) = Some out
                ∧ files (fixed_import w p) !! resolve w p
                  = Some (File out (S (S (mtime f))))
  end.
Proof.
  unfold fixed_import. destruct (files w !! resolve w p) as [f|] eqn:Hf; [|done].
  destruct (unused_imports_subs_total (universal_newlines (data f))) as [out Hout]. rewrite Hout.
  exists out. split; [done|]. unfold rewritten. cbn [files]. apply lookup_insert_eq.
Qed.

(** The loop over any list of distinct paths. *)
Lemma foldl_fixed_import ps w :
  NoDup ps →
  cwd (foldl fixed_import w ps) = cwd w
  ∧ commands (foldl fixed_import w ps) = commands w
  ∧ stdout (foldl fixed_import w ps)
    = stdout w ++ (report <$> List.filter (present w) ps)
  ∧ (∀ key, (∀ p, p ∈ ps → key ≠ resolve w p) →
       files (foldl fixed_import w ps) !! key = files w !! key)
  ∧ (∀ p, p ∈ ps →
       match files w !! resolve w p with
       | None => files (foldl fixed_import w ps) !! resolve w p = None
       | Some f => ∃ out, unused_imports_subs (universal_newlines (data f)) = Some out
                     ∧ files (foldl fixed_import w ps) !! resolve w p
                       = Some (File out (S (S (mtime f))))
       end).
Proof.
  revert w. induction ps as [|p ps IH]; intros w Hnd.
  - cbn [foldl List.filter fmap list_fmap]. rewrite app_nil_r.
    split_and!; [done..|]. intros p Hp. by apply elem_of_nil in Hp.
  - apply NoDup_cons in Hnd as [Hp Hnd]. cbn [foldl].
    destruct (IH (fixed_import w p) Hnd) as (Hcwd & Hcmd & Hout & Hother & Hhere).
    assert (∀ q, q ∈ ps → present (fixed_import w p) q = present w q) as Hpres.
    { intros q Hq. unfold present. rewrite fixed_import_resolve.
      rewrite fixed_import_other; [done|].
      intros Heq%resolve_inj. by subst. }
    split_and!.
    + by rewrite Hcwd, fixed_import_cwd.
    + by rewrite Hcmd, fixed_import_commands.
    + rewrite Hout, fixed_import_stdout. cbn [List.filter].
      rewrite (filter_ext_in (present (fixed_import w p)) (present w) ps)
        by (intros q Hq; apply Hpres; by apply list_elem_of_In).
      rewrite <- app_assoc. f_equal. by destruct (present w p).
    + intros key Hkey. rewrite Hother.
      * apply fixed_import_other. apply Hkey. by left.
      * intros q Hq. rewrite fixed_import_resolve. apply Hkey. by right.
    + intros q [->|Hq]%elem_of_cons.
      * rewrite Hother.
        -- apply fixed_import_here.
        -- intros q Hq. rewrite fixed_import_resolve.
           intros Heq%resolve_inj. by subst.
      * specialize (Hhere q Hq). rewrite fixed_import_resolve in Hhere.
        rewrite fixed_import_other in Hhere; [done|].
        intros Heq%resolve_inj. by subst.
Qed.

Lemma files_to_fix_distinct : NoDup files_to_fix.
Proof. apply (bool_decide_unpack (NoDup files_to_fix)). vm_compute. exact I. Qed.


End unused_imports.

(* ================================================================== *)
(** * Further properties of the substitutions *)
(* ================================================================== *)

Section literal_substitutions.
Import Fs Script Rules.


(** X1.  [fix_error_severity] deletes the first occurrence of the line
    [Self::MessageTooLong { .. } => 413,] whatever follows it, be it
    further occurrences or none: the pass does not check that the line
    is a duplicate.  A text without the line comes back unchanged. *)
Theorem X1_first_arm_is_deleted_even_alone (pre post : string) :
  occurs duplicate_arm pre = false →
  error_severity_subs (pre +:+ duplicate_arm +:+ post) = Some (pre +:+ post)
  ∧ error_severity_subs pre = Some pre.
Proof.
  intros Ho. unfold error_severity_subs, Re.sub. split.
  - rewrite duplicate_arm_first by done.
    cbn [Re.limit_of Re.spend fmap option_fmap option_map Nat.pred].
    by rewrite scan_exhausted.
  - by rewrite (literal_rule_settled _ _ _ _ _ _ duplicate_arm_rule).
Qed.

Lemma X1_first_arm_witness :
  error_severity_subs ("Self::Other => 400, " +:+ duplicate_arm +:+ " _ => 500")
  = Some ("Self::Other => 400, " +:+ " _ => 500")
  ∧ error_severity_subs "Self::Other => 400, " = Some "Self::Other => 400, ".
Proof.
  apply (X1_first_arm_is_deleted_even_alone "Self::Other => 400, " " _ => 500").
  vm_compute. reflexivity.
Defined.











End literal_substitutions.

Section captured_text.
Import Re.









End captured_text.

Section quoted_messages.
Import Fs Script Rules.






End quoted_messages.

Section import_lines.
Import Re.





End import_lines.

Section tungstenite.
Import Fs Script Rules.




End tungstenite.

(* ================================================================== *)
(** * Further properties of the passes and of [main] *)
(* ================================================================== *)

Section pass_effects.
Import Fs Script Rules.

Lemma pass_subs_total ps content : is_Some (pass_subs ps content).
Proof. rewrite pass_subs_rules. apply apply_rules_total, pass_rules_usable. Qed.

(** A single-file pass either finds no file and raises, or rewrites it. *)
Lemma pass_fix_cases ps w :
  match files w !! resolve w (pass_path ps) with
  | None => pass_fix ps w = (w, Raise (FileNotFoundError (pass_path ps)))
  | Some f => ∃ out, pass_subs ps (universal_newlines (data f)) = Some out
                ∧ pass_fix ps w = (rewritten (pass_path ps) out f w, Ok tt)
  end.
Proof.
  rewrite pass_fix_eq. destruct (files w !! resolve w (pass_path ps)) as [f|] eqn:Hf.
  - destruct (pass_subs_total ps (universal_newlines (data f))) as [out Hout].
    exists out. split; [done|]. by apply rewrite_file_present.
  - by apply rewrite_file_missing.
Qed.

Lemma rewritten_dom path out f w :
  files w !! resolve w path = Some f →
  dom (files (rewritten path out f w)) = dom (files w).
Proof.
  intros Hf. unfold rewritten. cbn [files]. rewrite dom_insert_L.
  apply subseteq_union_1_L, singleton_subseteq_l, elem_of_dom. by eexists.
Qed.

(** X8.  A single-file pass changes nothing but its own file: every
    other file keeps its content and stamp, no file appears or
    disappears, and the working directory and the command log stay as
    they are, whether the pass succeeds or raises. *)
Theorem X8_pass_touches_only_its_file (ps : pass) (w : world) (key : string) :
  key ≠ resolve w (pass_path ps) →
  files (pass_fix ps w).1 !! key = files w !! key
  ∧ dom (files (pass_fix ps w).1) = dom (files w)
  ∧ cwd (pass_fix ps w).1 = cwd w
  ∧ commands (pass_fix ps w).1 = commands w.
Proof.
  intros Hkey. pose proof (pass_fix_cases ps w) as H.
  destruct (files w !! resolve w (pass_path ps)) as [f|] eqn:Hf.
  - destruct H as (out & _ & ->). cbn [fst]. split_and!.
    + unfold rewritten. cbn [files]. by rewrite lookup_insert_ne.
    + by apply rewritten_dom.
    + done.
    + done.
  - by rewrite H.
Qed.

Lemma X8_pass_touches_only_its_file_witness :
  files (pass_fix MessageHandler (started incomplete_world)).1
    !! "/home/senke/Documents/veza-full-stack/veza-chat-server/src/error.rs"
  = files (started incomplete_world)
      !! "/home/senke/Documents/veza-full-stack/veza-chat-server/src/error.rs"
  ∧ dom (files (pass_fix MessageHandler (started incomplete_world)).1)
    = dom (files (started incomplete_world))
  ∧ cwd (pass_fix MessageHandler (started incomplete_world)).1
    = cwd (started incomplete_world)
  ∧ commands (pass_fix MessageHandler (started incomplete_world)).1
    = commands (started incomplete_world).
Proof.
  apply (X8_pass_touches_only_its_file MessageHandler (started incomplete_world)
           "/home/senke/Documents/veza-full-stack/veza-chat-server/src/error.rs").
  vm_compute. discriminate.
Defined.

Lemma universal_newlines_no_cr s :
  all_chars (differs carriage_return) (universal_newlines s) = true
  ∧ (∀ b s', s = String b s' →
       all_chars (differs carriage_return) (universal_newlines s') = true).
Proof.
  induction s as [|a s [IH1 IH2]]; [done|]. split.
  - cbn [universal_newlines]. destruct (Ascii.eqb a carriage_return) eqn:Ha.
    + cbn [all_chars]. apply andb_true_iff. split; [done|].
      destruct s as [|b s']; [done|]. destruct (Ascii.eqb b newline); [|done].
      by apply (IH2 b s').
    + cbn [all_chars]. unfold differs at 1. by rewrite Ha, IH1.
  - intros b s' [= _ <-]. done.
Qed.

(** X9.  A pass reads its file in text mode, so what it writes back has
    line ends [\n] only: when no rule matches the text read, the file
    ends up holding its old content with every [\r\n] and lone [\r]
    turned into [\n], and no carriage return. *)
Theorem X9_line_ends_are_normalised (ps : pass) (w : world) (f : file) :
  files w !! resolve w (pass_path ps) = Some f →
  settled (pass_rules ps) (universal_newlines (data f)) = true →
  files (pass_fix ps w).1 !! resolve w (pass_path ps)
  = Some (File (universal_newlines (data f)) (S (S (mtime f))))
  ∧ all_chars (differs carriage_return) (universal_newlines (data f)) = true.
Proof.
  intros Hf Hs. split; [|apply universal_newlines_no_cr].
  rewrite pass_fix_eq.
  rewrite (rewrite_file_present _ _ _ f (universal_newlines (data f))); [|done|].
  - unfold rewritten. cbn [fst files]. apply lookup_insert_eq.
  - rewrite pass_subs_rules, apply_rules_fst.
    by rewrite apply_rules_n_settled by (apply pass_rules_usable || done).
Qed.

Lemma X9_line_ends_witness :
  let crlf := String carriage_return nl in
  let w := World "/srv/chat"
             {[ "/srv/chat/src/error.rs" := File ("fn a() {}" +:+ crlf +:+ "fn b() {}" +:+ crlf) 4 ]}
             [] [] in
  files (pass_fix ErrorSeverity w).1 !! resolve w (pass_path ErrorSeverity)
  = Some (File (universal_newlines ("fn a() {}" +:+ crlf +:+ "fn b() {}" +:+ crlf)) 6)
  ∧ all_chars (differs carriage_return)
      (universal_newlines ("fn a() {}" +:+ crlf +:+ "fn b() {}" +:+ crlf)) = true.
Proof.
  apply (X9_line_ends_are_normalised ErrorSeverity
           (World "/srv/chat"
              {[ "/srv/chat/src/error.rs"
                   := File ("fn a() {}" +:+ String carriage_return nl +:+ "fn b() {}"
                            +:+ String carriage_return nl) 4 ]} [] [])
           (File ("fn a() {}" +:+ String carriage_return nl +:+ "fn b() {}"
                  +:+ String carriage_return nl) 4));
    vm_compute; reflexivity.
Defined.

End pass_effects.

Section whole_run.
Import Fs Script Rules.

Lemma kept_refl key w : kept key w w.
Proof. by unfold kept. Qed.

Lemma kept_trans key w1 w2 w3 : kept key w1 w2 → kept key w2 w3 → kept key w1 w3.
Proof.
  unfold kept, resolve. intros (Hc1 & Hm1 & Hd1 & Hk1) (Hc2 & Hm2 & Hd2 & Hk2).
  split_and!; [congruence..|]. intros Hkey.
  rewrite Hk2, Hk1; [done..|]. by rewrite Hc1.
Qed.

(** Sequencing keeps what both parts keep. *)
Lemma kept_seq key (m k : io unit) :
  (∀ w, kept key w (m w).1) → (∀ w, kept key w (k w).1) →
  ∀ w, kept key w ((m;; k) w).1.
Proof.
  intros Hm Hk w. specialize (Hm w). unfold mbind, io_bind, bind.
  destruct (m w) as [w1 [[]|e]]; [|done].
  eapply kept_trans; [exact Hm|apply Hk].
Qed.

Lemma pass_path_target ps : pass_path ps ∈ targets.
Proof.
  unfold targets. apply elem_of_app. left.
  destruct ps; cbn [pass_path]; rewrite !elem_of_cons; auto.
Qed.

Lemma files_to_fix_targets p : p ∈ files_to_fix → p ∈ targets.
Proof. intros Hp. unfold targets. apply elem_of_app. by right. Qed.

Lemma pass_fix_kept key ps w : kept key w (pass_fix ps w).1.
Proof.
  pose proof (pass_fix_cases ps w) as H. unfold kept.
  destruct (files w !! resolve w (pass_path ps)) as [f|] eqn:Hf.
  - destruct H as (out & _ & ->). cbn [fst]. split_and!; [done..| |].
    + by apply rewritten_dom.
    + intros Hkey. unfold rewritten. cbn [files]. rewrite lookup_insert_ne; [done|].
      intros Heq. by apply (Hkey _ (pass_path_target ps)).
  - by rewrite H.
Qed.

Lemma fixed_import_dom w p : dom (files (fixed_import w p)) = dom (files w).
Proof.
  unfold fixed_import. destruct (files w !! resolve w p) as [f|] eqn:Hf; [|done].
  destruct (unused_imports_subs (universal_newlines (data f))); [|done].
  by apply rewritten_dom.
Qed.

Lemma foldl_fixed_import_dom ps w : dom (files (foldl fixed_import w ps)) = dom (files w).
Proof.
  revert w. induction ps as [|p ps IH]; intros w; [done|].
  cbn [foldl]. by rewrite IH, fixed_import_dom.
Qed.

Lemma fix_unused_imports_kept key w : kept key w (fix_unused_imports w).1.
Proof.
  unfold fix_unused_imports. rewrite for_each_fixed_import. cbn [fst].
  destruct (foldl_fixed_import files_to_fix w files_to_fix_distinct)
    as (Hcwd & Hcmd & _ & Hother & _).
  unfold kept. split_and!; [done..|apply foldl_fixed_import_dom|].
  intros Hkey. apply Hother. intros p Hp. by apply Hkey, files_to_fix_targets.
Qed.

Lemma apply_fixes_kept key w : kept key w (apply_fixes w).1.
Proof.
  unfold apply_fixes. revert w.
  apply kept_seq; [apply (pass_fix_kept key MessageStore)|].
  apply kept_seq; [apply (pass_fix_kept key MessageHandler)|].
  apply kept_seq; [apply (pass_fix_kept key ErrorSeverity)|].
  apply fix_unused_imports_kept.
Qed.

(** [main] is its prologue, the passes and, when these return, its
    epilogue. *)
Lemma main_eq w :
  is_dir w "/home/senke/Documents/veza-full-stack/veza-chat-server" = true →
  main w = match apply_fixes (started w) with
           | (w1, Ok _) => (finished w1, Ok tt)
           | (w1, Raise e) => (w1, Raise e)
           end.
Proof.
  intros Hd. unfold main. rewrite prologue by done.
  unfold mbind at 1. unfold io_bind, bind at 1.
  by destruct (apply_fixes (started w)) as [w1 [[]|e]].
Qed.

Lemma main_no_directory w :
  is_dir w "/home/senke/Documents/veza-full-stack/veza-chat-server" = false →
  main w
  = (World (cwd w) (files w)
           (stdout w ++ ["🔧 Correction des erreurs de compilation Rust..."]) (commands w),
     Raise (FileNotFoundError "/home/senke/Documents/veza-full-stack/veza-chat-server")).
Proof. intros Hd. unfold main. by rewrite prologue_missing. Qed.


(** The passes end well or with the missing file of a single-file pass. *)
Lemma apply_fixes_outcome w :
  (apply_fixes w).2 = Ok tt
  ∨ ∃ ps, (apply_fixes w).2 = Raise (FileNotFoundError (pass_path ps)).
Proof.
  unfold apply_fixes.
  pose proof (pass_fix_cases MessageStore w) as H1. cbn [pass_fix] in H1.
  destruct (files w !! resolve w (pass_path MessageStore)) as [f1|].
  2:{ right. exists MessageStore. by rewrite (bind_raise _ _ _ _ _ H1). }
  destruct H1 as (o1 & _ & H1). rewrite (bind_ok _ _ _ _ _ H1).
  set (w1 := rewritten _ o1 f1 w).
  pose proof (pass_fix_cases MessageHandler w1) as H2. cbn [pass_fix] in H2.
  destruct (files w1 !! resolve w1 (pass_path MessageHandler)) as [f2|].
  2:{ right. exists MessageHandler. by rewrite (bind_raise _ _ _ _ _ H2). }
  destruct H2 as (o2 & _ & H2). rewrite (bind_ok _ _ _ _ _ H2).
  set (w2 := rewritten _ o2 f2 w1).
  pose proof (pass_fix_cases ErrorSeverity w2) as H3. cbn [pass_fix] in H3.
  destruct (files w2 !! resolve w2 (pass_path ErrorSeverity)) as [f3|].
  2:{ right. exists ErrorSeverity. by rewrite (bind_raise _ _ _ _ _ H3). }
  destruct H3 as (o3 & _ & H3). rewrite (bind_ok _ _ _ _ _ H3).
  left. unfold fix_unused_imports. by rewrite for_each_fixed_import.
Qed.

(** X10.  No run of [main] raises [re.error]: every pattern and every
    replacement of the script is well formed.  [cargo check] is started
    exactly when all four passes returned, once and as the last action;
    a run that ends with an exception has started no command. *)
Theorem X10_check_runs_only_after_all_passes (w : world) :
  (main w).2 ≠ Raise ReError
  ∧ ((main w).2 = Ok tt → commands (main w).1 = commands w ++ ["cargo check"])
  ∧ ((main w).2 ≠ Ok tt → commands (main w).1 = commands w).
Proof.
  destruct (is_dir w "/home/senke/Documents/veza-full-stack/veza-chat-server") eqn:Hd.
  - rewrite main_eq by done.
    destruct (apply_fixes_kept EmptyString (started w)) as (_ & Hcmd & _).
    destruct (apply_fixes_outcome (started w)) as [Hok|(ps & Hps)];
      destruct (apply_fixes (started w)) as [w1 [[]|e]]; cbn [fst snd] in *;
      simplify_eq; (split_and!; [done| |]); cbn [finished commands]; try done.
    + intros _. by rewrite Hcmd.
  - rewrite main_no_directory by done. cbn [fst snd commands]. by split_and!.
Qed.

(** X11.  The four passes that [main] runs before it starts
    [cargo check] never create or delete a file, and a file that is
    none of the nine targets, resolved against the working directory,
    keeps its content and stamp, however the passes end. *)
Theorem X11_passes_touch_only_their_targets (w : world) (key : string) :
  (∀ p, p ∈ targets → key ≠ resolve w p) →
  files (apply_fixes w).1 !! key = files w !! key
  ∧ dom (files (apply_fixes w).1) = dom (files w).
Proof.
  intros Hkey.
  destruct (apply_fixes_kept key w) as (_ & _ & Hdom & Hk). by split; [apply Hk|].
Qed.

Lemma X11_passes_touch_only_their_targets_witness :
  let w := World "/srv/chat"
    {[ "/srv/chat/src/message_store.rs" := File "let id = row.id;" 1;
       "/srv/chat/src/message_handler.rs" := File "fn handle() {}" 1;
       "/srv/chat/src/error.rs" := File "Self::MessageTooLong { .. } => 413," 1;
       "/srv/chat/src/security.rs" := File "use log::{info, error};" 1;
       "/srv/chat/Cargo.toml" := File "[package]" 1 ]} [] [] in
  files (apply_fixes w).1 !! "/srv/chat/Cargo.toml" = files w !! "/srv/chat/Cargo.toml"
  ∧ dom (files (apply_fixes w).1) = dom (files w).
Proof.
  apply (X11_passes_touch_only_their_targets
           (World "/srv/chat"
              {[ "/srv/chat/src/message_store.rs" := File "let id = row.id;" 1;
                 "/srv/chat/src/message_handler.rs" := File "fn handle() {}" 1;
                 "/srv/chat/src/error.rs" := File "Self::MessageTooLong { .. } => 413," 1;
                 "/srv/chat/src/security.rs" := File "use log::{info, error};" 1;
                 "/srv/chat/Cargo.toml" := File "[package]" 1 ]} [] [])
           "/srv/chat/Cargo.toml").
  intros p Hp. unfold targets, files_to_fix in Hp.
  repeat (apply elem_of_cons in Hp as [->|Hp]; [vm_compute; discriminate|]).
  by apply elem_of_nil in Hp.
Defined.





End whole_run.

(* ================================================================== *)
(** * Where an occurrence can start *)
(* ================================================================== *)

Section occurrences.
Import Re.












End occurrences.

Section calls_behind_text.
Import Re.


End calls_behind_text.

Section handler_calls_behind_text.
Import Rules.




End handler_calls_behind_text.

Section row_field_loop.
Import Rules.









End row_field_loop.
